(** * IOXIO Tags: the tag codec and the verification pipeline of [api/app/tag.py]

    A shallow embedding of the signing and verification code of
    [api/app/tag.py] and of the library calls it makes, followed by the
    theorems that settle the properties stated for it.

    Python [bytes] are [list byte]; Python [str] is [string], read as the
    UTF-8 bytes of the text; exceptions are values of [exn]; a computation
    returns an outcome together with the trace of the calls it made to its
    collaborators (Base45 decoding, signing, signature checks, HTTP fetches,
    logging and rendering). *)

From Stdlib Require Import ZArith NArith List Bool Lia.
From Stdlib.Strings Require Import String Ascii Byte.
Import ListNotations.

#[local] Set Warnings "-register-all".

Local Open Scope string_scope.
Local Open Scope list_scope.

(** ** Bytes and text *)

Definition bytes := list byte.

(** [s.encode("utf-8")] and [b.decode()] on text that is kept as its bytes. *)
Definition str_encode (s : string) : bytes := list_byte_of_string s.
Definition bytes_decode (b : bytes) : string := string_of_list_byte b.

(** The byte with value [n mod 256]. *)
Definition byte_of_N (n : N) : byte :=
  match Byte.of_N (n mod 256) with
  | Some b => b
  | None => x00
  end.

(** Python's [s[n:]] on a string. *)
Fixpoint str_drop (n : nat) (s : string) : string :=
  match n, s with
  | O, _ => s
  | S n', String _ r => str_drop n' r
  | S _, EmptyString => EmptyString
  end.

(** Python's [s.startswith(p)]. *)
Definition startswith (s p : string) : bool := String.prefix p s.

(** ** JSON documents, as [fetch_json_file] hands them over *)

Inductive json : Type :=
| JNull
| JBool (b : bool)
| JNum (z : Z)
| JStr (s : string)
| JArr (l : list json)
| JObj (fields : list (string * json)).

(** A [dict] built from a list of pairs keeps, for a repeated key, the last
    value: [dict_get] is the lookup [d[k]] of such a dict. *)
Fixpoint dict_get {V : Type} (k : string) (d : list (string * V)) : option V :=
  match d with
  | [] => None
  | (k', v) :: rest =>
      match dict_get k rest with
      | Some v' => Some v'
      | None => if (k' =? k)%string then Some v else None
      end
  end.

(** [d[k] = v] on a copy of [d]. *)
Definition dict_set {V : Type} (k : string) (v : V) (d : list (string * V))
  : list (string * V) := d ++ [(k, v)].

(** ** Exceptions, traces and the computation monad *)

(** The exceptions the code raises or lets through: [TagsError] with its
    message and code and [CannotSignInvalidIssuer] are the errors of
    [app.errors]; [HTTPError] is the transport error of [httpx],
    [ValidationError] the one of [pydantic], [CWTError] the base class of the
    errors of [cwt], with the message of the error; the others are Python's
    own. *)
Inductive exn : Type :=
| TagsError (error code : string)
| CannotSignInvalidIssuer
| KeyError
| TypeError
| ValueError (msg : string)
| ValidationError
| StopIteration
| HTTPError
| CWTError (msg : string).

(** Key material: a private key read from a PEM text, or the public key
    carried by a JWK document. *)
Inductive key_material : Type :=
| PrivatePEM (pem : string)
| PublicJWK (jwk : json).

(** The calls a computation makes to what lies outside [tag.py]. *)
Inductive event : Type :=
| EvB45Decode (s : string)
| EvSign (k : key_material) (msg : bytes)
| EvVerify (k : key_material) (msg sig : bytes)
| EvFetch (uri : string)
| EvLog (msg : string)
| EvMakeImage (payload : bytes) (frame : string).

Inductive outcome (A : Type) : Type :=
| Returns (a : A)
| Raises (e : exn).
Arguments Returns {A} a.
Arguments Raises {A} e.

Definition M (A : Type) : Type := (list event * outcome A)%type.

Definition ret {A : Type} (a : A) : M A := ([], Returns a).
Definition raise {A : Type} (e : exn) : M A := ([], Raises e).
Definition emit (ev : event) : M unit := ([ev], Returns tt).
Definition lift {A : Type} (o : outcome A) : M A := ([], o).

Definition after {A : Type} (t : list event) (m : M A) : M A :=
  (t ++ fst m, snd m).

Definition bind {A B : Type} (m : M A) (f : A -> M B) : M B :=
  match snd m with
  | Returns a => after (fst m) (f a)
  | Raises e => (fst m, Raises e)
  end.

(** [try: m  except ...: h]: the handler [h] answers [Some body] for the
    exception classes its [except] clauses name, [None] for the others, which
    propagate. *)
Definition try_except {A : Type} (m : M A) (h : exn -> option (M A)) : M A :=
  match snd m with
  | Returns _ => m
  | Raises e =>
      match h e with
      | Some body => after (fst m) body
      | None => m
      end
  end.

Definition trace_of {A : Type} (m : M A) : list event := fst m.
Definition outcome_of {A : Type} (m : M A) : outcome A := snd m.

Declare Scope tag_scope.
Delimit Scope tag_scope with tag.
Notation "x <- m ;; k" := (bind m (fun x => k))
  (at level 61, m at next level, right associativity) : tag_scope.
Notation "m ;;; k" := (bind m (fun _ => k))
  (at level 61, right associativity) : tag_scope.
Local Open Scope tag_scope.

(** ** Base45 (package [base45], RFC 9285) *)

Module Base45.

Definition BASE45_CHARSET : string :=
  "0123456789ABCDEFGHIJKLMNOPQRSTUVWXYZ $%*+-./:".

(** [BASE45_CHARSET[i]] for an index below 45. *)
Definition charset (i : N) : ascii :=
  nth (N.to_nat i) (list_ascii_of_string BASE45_CHARSET) "0"%char.

Fixpoint index_of (c : ascii) (l : list ascii) (i : N) : option N :=
  match l with
  | [] => None
  | c' :: rest => if Ascii.eqb c' c then Some i else index_of c rest (N.succ i)
  end.

(** [BASE45_DICT[c]]; [None] is the [KeyError] of the lookup. *)
Definition BASE45_DICT (c : ascii) : option N :=
  index_of c (list_ascii_of_string BASE45_CHARSET) 0%N.

(** The loop of [b45encode]: two bytes give three symbols, a last single
    byte gives two. *)
Fixpoint encode_chars (buf : bytes) : list ascii :=
  match buf with
  | b0 :: b1 :: rest =>
      let x := (Byte.to_N b0 * 256 + Byte.to_N b1)%N in
      let e := (x / (45 * 45))%N in
      let x' := (x mod (45 * 45))%N in
      let d := (x' / 45)%N in
      let c := (x' mod 45)%N in
      charset c :: charset d :: charset e :: encode_chars rest
  | [b] =>
      let d := (Byte.to_N b / 45)%N in
      let c := (Byte.to_N b mod 45)%N in
      [charset c; charset d]
  | [] => []
  end.

Definition b45encode (buf : bytes) : bytes :=
  str_encode (string_of_list_ascii (encode_chars buf)).

(** [s.rstrip("\n")]. *)
Definition is_newline (c : ascii) : bool := Ascii.eqb c (ascii_of_N 10).

Fixpoint rstrip_newline (l : list ascii) : list ascii :=
  match l with
  | [] => []
  | c :: rest =>
      match rstrip_newline rest with
      | [] => if is_newline c then [] else [c]
      | r => c :: r
      end
  end.

(** [[BASE45_DICT[c] for c in s]]. *)
Fixpoint lookup_all (l : list ascii) : option (list N) :=
  match l with
  | [] => Some []
  | c :: rest =>
      match BASE45_DICT c, lookup_all rest with
      | Some i, Some vs => Some (i :: vs)
      | _, _ => None
      end
  end.

(** The loop of [b45decode] over the symbol values. *)
Fixpoint decode_values (buf : list N) : option bytes :=
  match buf with
  | c :: d :: e :: rest =>
      let x := (c + d * 45 + e * 45 * 45)%N in
      if (65535 <? x)%N then None
      else
        match decode_values rest with
        | Some r => Some (byte_of_N (x / 256) :: byte_of_N (x mod 256) :: r)
        | None => None
        end
  | [c; d] =>
      let x := (c + d * 45)%N in
      if (255 <? x)%N then None else Some [byte_of_N x]
  | [_] => None
  | [] => Some []
  end.

(** [b45decode] on a [str]: every failure inside it is raised as
    [ValueError("Invalid base45 string")]. *)
Definition b45decode_str (s : string) : option bytes :=
  match lookup_all (rstrip_newline (list_ascii_of_string s)) with
  | None => None
  | Some buf =>
      if (Nat.modulo (List.length buf) 3 =? 1)%nat then None
      else decode_values buf
  end.

Definition b45decode (s : string) : M bytes :=
  emit (EvB45Decode s) ;;;
  match b45decode_str s with
  | Some b => ret b
  | None => raise (ValueError "Invalid base45 string")
  end.

(** The symbol values of an encoding, before they are turned into symbols. *)
Fixpoint encode_values (buf : bytes) : list N :=
  match buf with
  | b0 :: b1 :: rest =>
      let x := (Byte.to_N b0 * 256 + Byte.to_N b1)%N in
      ((x mod (45 * 45)) mod 45 :: (x mod (45 * 45)) / 45 :: x / (45 * 45)
         :: encode_values rest)%N
  | [b] => [Byte.to_N b mod 45; Byte.to_N b / 45]%N
  | [] => []
  end.

End Base45.

(** ** [ioxio_tag_str_to_cose_bytes] *)

(** Version prefix for all tags. *)
Definition IOXIO_TAGS_HEADER : bytes := str_encode "IT1:".

Definition err_missing_version : exn :=
  TagsError "Not an IOXIO Tag code, missing version identifier."
            "signature_verification_failed".

Definition err_failed_base45 : exn :=
  TagsError "Not an IOXIO Tag code, failed Base45 decode"
            "signature_verification_failed".

Definition ioxio_tag_str_to_cose_bytes (code : string) : M bytes :=
  code_b45 <- (if startswith code "IT1:" then ret (str_drop 4 code)
               else raise err_missing_version) ;;
  try_except (Base45.b45decode code_b45)
    (fun e => match e with
              | ValueError _ => Some (raise err_failed_base45)
              | _ => None
              end).

(** ** CBOR (package [cbor2], RFC 8949)

    The data items the tag envelope is made of: integers, byte and text
    strings, arrays, maps and tags, with definite lengths. Floats, simple
    values and indefinite lengths do not occur in a tag; the decoder below
    rejects them. *)

Inductive cbor : Type :=
| CInt (z : Z)
| CBytes (b : bytes)
| CText (s : string)
| CArray (items : list cbor)
| CMap (entries : list (cbor * cbor))
| CTag (tag : N) (value : cbor).

Module Cbor.

(** Big-endian bytes of [n], [k] of them. *)
Fixpoint be_bytes (k : nat) (n : N) : bytes :=
  match k with
  | O => []
  | S k' => byte_of_N (n / 256 ^ N.of_nat k') :: be_bytes k' n
  end.

Definition be_value (bs : bytes) : N :=
  fold_left (fun acc b => (acc * 256 + Byte.to_N b)%N) bs 0%N.

(** The initial byte of an item and its argument, in the shortest form. *)
Definition encode_head (major n : N) : bytes :=
  if (n <? 24)%N then [byte_of_N (major * 32 + n)]
  else if (n <? 256)%N then byte_of_N (major * 32 + 24) :: be_bytes 1 n
  else if (n <? 65536)%N then byte_of_N (major * 32 + 25) :: be_bytes 2 n
  else if (n <? 4294967296)%N then byte_of_N (major * 32 + 26) :: be_bytes 4 n
  else byte_of_N (major * 32 + 27) :: be_bytes 8 n.

(** A map's entries as the sequence key, value, key, value, ... *)
Fixpoint flatten (entries : list (cbor * cbor)) : list cbor :=
  match entries with
  | [] => []
  | (k, v) :: rest => k :: v :: flatten rest
  end.

Fixpoint pair_up (items : list cbor) : list (cbor * cbor) :=
  match items with
  | k :: v :: rest => (k, v) :: pair_up rest
  | _ => []
  end.

Fixpoint encode (v : cbor) : bytes :=
  match v with
  | CInt z =>
      if (0 <=? z)%Z then encode_head 0 (Z.to_N z)
      else encode_head 1 (Z.to_N (- 1 - z))
  | CBytes b => encode_head 2 (N.of_nat (List.length b)) ++ b
  | CText s =>
      encode_head 3 (N.of_nat (List.length (str_encode s))) ++ str_encode s
  | CArray items =>
      encode_head 4 (N.of_nat (List.length items))
        ++ (fix all (l : list cbor) : bytes :=
              match l with
              | [] => []
              | x :: r => encode x ++ all r
              end) items
  | CMap entries =>
      encode_head 5 (N.of_nat (List.length entries))
        ++ (fix all (l : list (cbor * cbor)) : bytes :=
              match l with
              | [] => []
              | (k, x) :: r => encode k ++ encode x ++ all r
              end) entries
  | CTag t x => encode_head 6 t ++ encode x
  end.

Fixpoint encode_all (l : list cbor) : bytes :=
  match l with
  | [] => []
  | x :: r => encode x ++ encode_all r
  end.

(** [cbor2.dumps]. *)
Definition dumps (v : cbor) : bytes := encode v.

(** The argument that follows an initial byte with additional
    information [info]. *)
Definition decode_arg (info : N) (bs : bytes) : option (N * bytes) :=
  let read (k : nat) :=
    if (List.length bs <? k)%nat then None
    else Some (be_value (firstn k bs), skipn k bs) in
  if (info <? 24)%N then Some (info, bs)
  else if (info =? 24)%N then read 1%nat
  else if (info =? 25)%N then read 2%nat
  else if (info =? 26)%N then read 4%nat
  else if (info =? 27)%N then read 8%nat
  else None.

Definition take (n : N) (bs : bytes) : option (bytes * bytes) :=
  if (N.of_nat (List.length bs) <? n)%N then None
  else Some (firstn (N.to_nat n) bs, skipn (N.to_nat n) bs).

(** One data item of major type [major] and argument [n], its content read
    off [rest1]; [rec] reads the items nested in it. *)
Definition decode_item (rec : nat -> bytes -> option (list cbor * bytes))
  (major n : N) (rest1 : bytes) : option (cbor * bytes) :=
  match major with
  | 0%N => Some (CInt (Z.of_N n), rest1)
  | 1%N => Some (CInt (- 1 - Z.of_N n), rest1)
  | 2%N =>
      match take n rest1 with
      | Some (s, rest2) => Some (CBytes s, rest2)
      | None => None
      end
  | 3%N =>
      match take n rest1 with
      | Some (s, rest2) => Some (CText (bytes_decode s), rest2)
      | None => None
      end
  | 4%N =>
      if (N.of_nat (List.length rest1) <? n)%N then None
      else
        match rec (N.to_nat n) rest1 with
        | Some (items, rest2) => Some (CArray items, rest2)
        | None => None
        end
  | 5%N =>
      if (N.of_nat (List.length rest1) <? 2 * n)%N then None
      else
        match rec (2 * N.to_nat n)%nat rest1 with
        | Some (items, rest2) => Some (CMap (pair_up items), rest2)
        | None => None
        end
  | 6%N =>
      match rec 1%nat rest1 with
      | Some ([x], rest2) => Some (CTag n x, rest2)
      | _ => None
      end
  | _ => None
  end.

(** [decode_seq fuel k bs] reads [k] consecutive data items off [bs]. *)
Fixpoint decode_seq (fuel : nat) (k : nat) (bs : bytes) {struct fuel}
  : option (list cbor * bytes) :=
  match k with
  | O => Some ([], bs)
  | S k' =>
      match fuel with
      | O => None
      | S fuel' =>
          match bs with
          | [] => None
          | b :: rest =>
              match decode_arg (Byte.to_N b mod 32) rest with
              | None => None
              | Some (n, rest1) =>
                  match decode_item (decode_seq fuel') (Byte.to_N b / 32) n rest1 with
                  | None => None
                  | Some (x, rest2) =>
                      match decode_seq fuel' k' rest2 with
                      | Some (xs, rest3) => Some (x :: xs, rest3)
                      | None => None
                      end
                  end
              end
          end
      end
  end.

(** [cbor2.loads]: the first data item of [bs]; [None] stands for the
    decoder's exception. *)
Definition loads (bs : bytes) : option cbor :=
  match decode_seq (S (List.length bs)) 1 bs with
  | Some (x :: _, _) => Some x
  | _ => None
  end.

(** [d[i]] and [d[s]] on a decoded map: the last entry under the key. *)
Fixpoint get_int (i : Z) (entries : list (cbor * cbor)) : option cbor :=
  match entries with
  | [] => None
  | (k, v) :: rest =>
      match get_int i rest with
      | Some v' => Some v'
      | None =>
          match k with
          | CInt z => if (z =? i)%Z then Some v else None
          | _ => None
          end
      end
  end.

Fixpoint get_text (s : string) (entries : list (cbor * cbor)) : option cbor :=
  match entries with
  | [] => None
  | (k, v) :: rest =>
      match get_text s rest with
      | Some v' => Some v'
      | None =>
          match k with
          | CText t => if (t =? s)%string then Some v else None
          | _ => None
          end
      end
  end.

Definition is_text (v : cbor) : bool :=
  match v with CText _ => true | _ => false end.

(** The number of data items in a value, itself included. *)
Fixpoint size (v : cbor) : nat :=
  match v with
  | CArray items =>
      S ((fix all (l : list cbor) : nat :=
            match l with [] => O | x :: r => size x + all r end) items)
  | CMap entries =>
      S ((fix all (l : list (cbor * cbor)) : nat :=
            match l with [] => O | (k, x) :: r => size k + size x + all r end)
           entries)
  | CTag _ x => S (size x)
  | _ => 1
  end.

Fixpoint size_all (l : list cbor) : nat :=
  match l with [] => O | x :: r => size x + size_all r end.

(** A value [cbor2] writes with the heads above: every integer and every
    length fits 64 bits. *)
Definition fits (n : N) : Prop := (n < 2 ^ 64)%N.

Fixpoint wf (v : cbor) : Prop :=
  match v with
  | CInt z => (- 2 ^ 64 <= z < 2 ^ 64)%Z
  | CBytes b => fits (N.of_nat (List.length b))
  | CText s => fits (N.of_nat (List.length (str_encode s)))
  | CArray items =>
      fits (N.of_nat (List.length items)) /\
      (fix all (l : list cbor) : Prop :=
         match l with [] => True | x :: r => wf x /\ all r end) items
  | CMap entries =>
      fits (N.of_nat (List.length entries)) /\
      (fix all (l : list (cbor * cbor)) : Prop :=
         match l with [] => True | (k, x) :: r => wf k /\ wf x /\ all r end)
        entries
  | CTag t x => fits t /\ wf x
  end.

Fixpoint wf_all (l : list cbor) : Prop :=
  match l with [] => True | x :: r => wf x /\ wf_all r end.

End Cbor.

(** ** The program's surroundings

    What [tag.py] imports and this development takes as given: the settings
    ([settings.conf]), the test data ([testdata]), the RSA primitive under
    [cwt]'s RS256 keys, the answers of the network to [fetch_json_file], the
    clock, and the helpers of the image side. *)

Record Conf : Type := {
  conf_RSA_PRIVATE_KEY : string;
  conf_RSA_KID : string;
  conf_RSA_ISS : string
}.

Record World : Type := {
  conf : Conf;
  INVALID_KEY_DATA : string;
  DUMMY_JWK : list (string * json);
  (** RS256 signature of a message under a key. *)
  rsa_sign : key_material -> bytes -> bytes;
  (** RS256 check of a signature on a message under a key. *)
  rsa_verify : key_material -> bytes -> bytes -> bool;
  (** Whether the key parameters of a JWK make a key [cwt] can load. *)
  jwk_params_ok : list (string * json) -> bool;
  (** What an HTTP GET of a URI answers: a JSON document or an exception. *)
  http_get_json : string -> outcome json;
  (** Seconds since the epoch. *)
  now : Z;
  (** The file-name slug of a text (Unicode normalisation and regular
      expressions); file names play no part in the properties below. *)
  slugify : string -> string;
  (** The QR image of a payload, or the exception of the renderer. *)
  qr_image : bytes -> outcome bytes
}.

(** ** The models of the records of [tag.py] *)

Record CodePayload : Type := {
  iss : string;
  product : string;
  id : string
}.

Record CodeBasics : Type := {
  payload : CodePayload;
  alg : string;
  kid : string
}.

Record ProductPassport : Type := {
  jwks_uri : string;
  logo_url : string;
  product_dataspace : string
}.

(** A [cwt] key: its identifier, its COSE algorithm, its material and its
    [verify] method, which an instance can override. *)
Record COSEKey : Type := {
  key_kid : bytes;
  key_alg : Z;
  key_material_of : key_material;
  key_verify : bytes -> bytes -> M unit
}.

(** The four fields of a COSE_Sign1 message, the protected header decoded. *)
Record COSEMessage : Type := {
  msg_protected : list (cbor * cbor);
  msg_unprotected : list (cbor * cbor);
  msg_payload : cbor;
  msg_signature : bytes
}.

(** COSE algorithms from technical format to string argument format. *)
Definition ALGS : list (Z * string) := [((-257)%Z, "RS256")].

Fixpoint ALGS_lookup (table : list (Z * string)) (z : Z) : option string :=
  match table with
  | [] => None
  | (k, v) :: rest => if (k =? z)%Z then Some v else ALGS_lookup rest z
  end.

(** [ALGS[x]]: a miss is a [KeyError], an unhashable [x] a [TypeError]. *)
Definition ALGS_getitem (x : cbor) : M string :=
  match x with
  | CInt z =>
      match ALGS_lookup ALGS z with
      | Some name => ret name
      | None => raise KeyError
      end
  | CArray _ | CMap _ => raise TypeError
  | _ => raise KeyError
  end.

(** [d[i]] on a decoded header. *)
Definition header_getitem (d : list (cbor * cbor)) (i : Z) : M cbor :=
  match Cbor.get_int i d with
  | Some v => ret v
  | None => raise KeyError
  end.

(** [j[k]] on a JSON value. *)
Definition json_getitem (j : json) (k : string) : M json :=
  match j with
  | JObj fields =>
      match dict_get k fields with
      | Some v => ret v
      | None => raise KeyError
      end
  | _ => raise TypeError
  end.

(** [j == s] for a [str] [s]. *)
Definition json_eq_str (j : json) (s : string) : bool :=
  match j with
  | JStr t => (t =? s)%string
  | _ => false
  end.

(** The elements a [for] loop draws from a JSON value. *)
Definition json_iter (j : json) : M (list json) :=
  match j with
  | JArr l => ret l
  | JObj fields => ret (map (fun kv => JStr (fst kv)) fields)
  | JStr s => ret (map (fun c => JStr (String c EmptyString)) (list_ascii_of_string s))
  | _ => raise TypeError
  end.

Definition get_product_passport_uri (iss : string) : string :=
  "https://" ++ iss ++ "/.well-known/product-passport.json".

Definition get_product_metadata_uri (iss product : string) : string :=
  "https://" ++ iss ++ "/.well-known/product-passport/products/" ++ product ++ ".json".

(** A header's key identifier as text: [bytes] are decoded, [str] is kept. *)
Definition text_of_kid (v : cbor) : option string :=
  match v with
  | CBytes b => Some (bytes_decode b)
  | CText s => Some s
  | _ => None
  end.

Definition json_of_kid (v : cbor) : json :=
  match text_of_kid v with
  | Some s => JStr s
  | None => JNull
  end.

(** [CodePayload] built from the claims passed as keyword arguments: the
    claims are a map with text keys, of which [iss], [product] and [id] are
    texts. *)
Definition CodePayload_new (claims : cbor) : M CodePayload :=
  match claims with
  | CMap entries =>
      if forallb (fun kv => Cbor.is_text (fst kv)) entries then
        match Cbor.get_text "iss" entries, Cbor.get_text "product" entries,
              Cbor.get_text "id" entries with
        | Some (CText i), Some (CText p), Some (CText d) =>
            ret {| iss := i; product := p; id := d |}
        | _, _, _ => raise ValidationError
        end
      else raise TypeError
  | _ => raise TypeError
  end.

Definition CodeBasics_new (alg : string) (kid : cbor) (p : CodePayload)
  : M CodeBasics :=
  match text_of_kid kid with
  | Some k => ret {| payload := p; alg := alg; kid := k |}
  | None => raise ValidationError
  end.

(** [ProductPassport] built from the document passed as keyword arguments:
    the three fields are read as texts. *)
Definition ProductPassport_new (doc : json) : M ProductPassport :=
  match doc with
  | JObj fields =>
      match dict_get "jwks_uri" fields, dict_get "logo_url" fields,
            dict_get "product_dataspace" fields with
      | Some (JStr j), Some (JStr l), Some (JStr d) =>
          ret {| jwks_uri := j; logo_url := l; product_dataspace := d |}
      | _, _, _ => raise ValidationError
      end
  | _ => raise TypeError
  end.

Definition err_parse_failed (msg : string) : exn :=
  TagsError msg "signature_verification_failed".

Definition err_cannot_read_passport : exn :=
  TagsError "Signature verification failed, couldn't read metadata from domain."
            "invalid_issuer_cannot_read_product_passport_metadata".

Definition err_cannot_read_jwks : exn :=
  TagsError "Signature verification failed, couldn't read JWKS keys from domain."
            "invalid_issuer_cannot_read_jwks".

Definition err_key_not_found : exn :=
  TagsError "Signature verification failed, matching key was not found."
            "invalid_signature_jwks_invalid_key".

Definition err_verification_failed : exn :=
  TagsError "Signature verification failed."
            "invalid_signature_jwks_failed".

Section Program.

Variable w : World.

(** ** The calls into [cwt], [app.utils], [app.log] and the image side *)

Definition fetch_json_file (uri : string) : M json :=
  emit (EvFetch uri) ;;; lift (http_get_json w uri).

Definition logger_info (msg : string) : M unit := emit (EvLog msg).

(** The [sign] method of a key. *)
Definition key_sign (k : COSEKey) (msg : bytes) : M bytes :=
  match key_material_of k with
  | PrivatePEM _ =>
      emit (EvSign (key_material_of k) msg) ;;;
      ret (rsa_sign w (key_material_of k) msg)
  | PublicJWK _ => raise (ValueError "Public key cannot be used for signing.")
  end.

(** The [verify] method a key is born with: it raises [VerifyError], a
    [CWTError], on a signature that does not check. *)
Definition rsa_key_verify (m : key_material) (msg sig : bytes) : M unit :=
  emit (EvVerify m msg sig) ;;;
  if rsa_verify w m msg sig then ret tt
  else raise (CWTError "Failed to verify.").

(** [cwt.COSEKey.from_pem(key_data=pem, alg="RS256", kid=kid)]. *)
Definition COSEKey_from_pem (pem : string) (kid : string) : COSEKey :=
  {| key_kid := str_encode kid;
     key_alg := (-257)%Z;
     key_material_of := PrivatePEM pem;
     key_verify := rsa_key_verify (PrivatePEM pem) |}.

(** [cwt.COSEKey.from_jwk(jwk)] for the RS256 keys the program handles. *)
Definition COSEKey_from_jwk (jwk : json) : M COSEKey :=
  match jwk with
  | JObj fields =>
      match dict_get "kid" fields, dict_get "alg" fields with
      | Some (JStr k), Some (JStr "RS256") =>
          if jwk_params_ok w fields then
            ret {| key_kid := str_encode k;
                   key_alg := (-257)%Z;
                   key_material_of := PublicJWK jwk;
                   key_verify := rsa_key_verify (PublicJWK jwk) |}
          else raise (ValueError "Invalid JWK.")
      | _, _ => raise (ValueError "Invalid JWK.")
      end
  | _ => raise (ValueError "Invalid JWK.")
  end.

(** [cwt.COSEMessage.loads]: the structure of a COSE_Sign1 message, nothing
    checked beyond its shape. *)
Definition COSEMessage_loads (data : bytes) : M COSEMessage :=
  match Cbor.loads data with
  | Some (CTag 18 (CArray [CBytes p; CMap u; pl; CBytes sig])) =>
      match p with
      | [] =>
          ret {| msg_protected := []; msg_unprotected := u;
                 msg_payload := pl; msg_signature := sig |}
      | _ =>
          match Cbor.loads p with
          | Some (CMap pm) =>
              ret {| msg_protected := pm; msg_unprotected := u;
                     msg_payload := pl; msg_signature := sig |}
          | _ => raise (ValueError "Invalid COSE message.")
          end
      end
  | _ => raise (ValueError "Invalid COSE message.")
  end.

(** The bytes a COSE_Sign1 signature is computed over. *)
Definition sig_structure (b_protected pl : bytes) : bytes :=
  Cbor.dumps (CArray [CText "Signature1"; CBytes b_protected; CBytes []; CBytes pl]).

(** [COSE.encode(payload, key)] with [alg_auto_inclusion] and
    [kid_auto_inclusion]: a tagged COSE_Sign1 message. *)
Definition COSE_encode (pl : bytes) (key : COSEKey) : M bytes :=
  let p := [(CInt 1, CInt (key_alg key))] in
  let u := match key_kid key with
           | [] => []
           | _ => [(CInt 4, CBytes (key_kid key))]
           end in
  let b_protected := Cbor.dumps (CMap p) in
  sig <- key_sign key (sig_structure b_protected pl) ;;
  ret (Cbor.dumps (CTag 18 (CArray [CBytes b_protected; CMap u; CBytes pl; CBytes sig]))).

(** [COSE.decode(message, [key])] on a COSE_Sign1 message: the key named
    by the header checks the signature through its [verify] method, and the
    payload is returned. *)
Definition COSE_decode (v : cbor) (key : COSEKey) : M bytes :=
  match v with
  | CTag 18 (CArray [CBytes p; CMap u; CBytes pl; CBytes sig]) =>
      let pm := match p with
                | [] => Some []
                | _ => match Cbor.loads p with
                       | Some (CMap m) => Some m
                       | _ => None
                       end
                end in
      match pm with
      | None => raise (ValueError "Invalid COSE format.")
      | Some pm =>
          let header_kid := match Cbor.get_int 4 pm with
                            | Some k => Some k
                            | None => Cbor.get_int 4 u
                            end in
          let named := match header_kid with
                       | Some (CBytes k) =>
                           if list_eq_dec Byte.byte_eq_dec k (key_kid key)
                           then true else false
                       | Some _ => false
                       | None => true
                       end in
          if named then
            key_verify key (sig_structure p pl) sig ;;;
            ret pl
          else raise (ValueError "key is not found.")
      end
  | _ => raise (ValueError "Invalid COSE format.")
  end.

(** The claim checks of [cwt.decode]: expiry (4) and not-before (5), with
    a leeway of 60 seconds. *)
Definition cwt_verify_claims (claims : cbor) : M unit :=
  match claims with
  | CMap entries =>
      match Cbor.get_int 4 entries with
      | Some (CInt e) =>
          if (e <? now w - 60)%Z then raise (CWTError "The token has expired.")
          else ret tt
      | Some _ => raise (ValueError "exp should be int or float.")
      | None => ret tt
      end ;;;
      match Cbor.get_int 5 entries with
      | Some (CInt n) =>
          if (now w + 60 <? n)%Z then raise (CWTError "The token is not yet valid.")
          else ret tt
      | Some _ => raise (ValueError "nbf should be int or float.")
      | None => ret tt
      end
  | _ => raise (CWTError "Failed to decode.")
  end.

(** [cwt.decode(data, key, no_verify)]: the message is opened with the
    key, its payload is decoded into claims, and the claims are checked
    unless [no_verify] is set. [no_verify] does not skip the signature. *)
Definition cwt_decode (data : bytes) (key : COSEKey) (no_verify : bool) : M cbor :=
  match Cbor.loads data with
  | None => raise (CWTError "Failed to decode.")
  | Some v =>
      let v := match v with CTag 61 inner => inner | _ => v end in
      pl <- match v with
            | CTag _ _ => COSE_decode v key
            | CBytes b => ret b
            | _ => raise (CWTError "Failed to decode.")
            end ;;
      match Cbor.loads pl with
      | None => raise (CWTError "Failed to decode.")
      | Some claims =>
          (if no_verify then ret tt else cwt_verify_claims claims) ;;;
          ret claims
      end
  end.

Definition make_image_filename (iss product id security : string) : string :=
  slugify w iss ++ "_" ++ slugify w product ++ "_" ++ slugify w id ++ "_"
    ++ slugify w security ++ ".png".

Definition make_image (pl : bytes) (frame_type : string) : M bytes :=
  emit (EvMakeImage pl frame_type) ;;; lift (qr_image w pl).

(** ** [tag.py] *)

Definition RSA_PRIVATE_KEY : COSEKey :=
  COSEKey_from_pem (conf_RSA_PRIVATE_KEY (conf w)) (conf_RSA_KID (conf w)).

Definition INVALID_PRIVATE_KEY : COSEKey :=
  COSEKey_from_pem (INVALID_KEY_DATA w) (conf_RSA_KID (conf w)).

Definition cose_parse_insecure (cose_bytes : bytes) : M CodeBasics :=
  msg <- COSEMessage_loads cose_bytes ;;
  (* Extract alg and Key ID *)
  alg_id <- header_getitem (msg_protected msg) 1 ;;
  alg <- ALGS_getitem alg_id ;;
  kid <- header_getitem (msg_unprotected msg) 4 ;;
  (* Pretend like we have a key for this code *)
  let dummy_jwk :=
    dict_set "alg" (JStr alg) (dict_set "kid" (json_of_kid kid) (DUMMY_JWK w)) in
  dummy_key <- COSEKey_from_jwk (JObj dummy_jwk) ;;
  (* Override "verify" to always say it is ok *)
  let dummy_key :=
    {| key_kid := key_kid dummy_key;
       key_alg := key_alg dummy_key;
       key_material_of := key_material_of dummy_key;
       key_verify := fun _ _ => ret tt |} in
  try_except
    (claims <- cwt_decode cose_bytes dummy_key true ;;
     p <- CodePayload_new claims ;;
     CodeBasics_new alg kid p)
    (fun e => match e with
              | CWTError msg => Some (raise (err_parse_failed msg))
              | _ => None
              end).

(** Verify COSE signature, raises exceptions if it fails. *)
Definition cose_verify (cose_bytes : bytes) (key : COSEKey) : M unit :=
  cwt_decode cose_bytes key false ;;; ret tt.

(** [next(jwk for jwk in keys if jwk["kid"] == kid and jwk["alg"] == alg)]. *)
Fixpoint next_matching_jwk (keys : list json) (kid alg : string) : M json :=
  match keys with
  | [] => raise StopIteration
  | jwk :: rest =>
      k <- json_getitem jwk "kid" ;;
      if json_eq_str k kid then
        a <- json_getitem jwk "alg" ;;
        if json_eq_str a alg then ret jwk
        else next_matching_jwk rest kid alg
      else next_matching_jwk rest kid alg
  end.

(** [verify_code] has no [return]: on success its value is [None], here
    the [None] of an optional payload. *)
Definition verify_code (code_b45 : string) : M (option CodePayload) :=
  cose_bytes <- ioxio_tag_str_to_cose_bytes code_b45 ;;
  basics <- cose_parse_insecure cose_bytes ;;
  product_passport <-
    try_except
      (doc <- fetch_json_file (get_product_passport_uri (iss (payload basics))) ;;
       ProductPassport_new doc)
      (fun e => match e with
                | HTTPError => Some (raise err_cannot_read_passport)
                | _ => None
                end) ;;
  jwks <-
    try_except
      (fetch_json_file (jwks_uri product_passport))
      (fun e => match e with
                | HTTPError => Some (raise err_cannot_read_jwks)
                | _ => None
                end) ;;
  try_except
    ((* Find the correct JWK *)
     keys_doc <- json_getitem jwks "keys" ;;
     keys <- json_iter keys_doc ;;
     jwk <- next_matching_jwk keys (kid basics) (alg basics) ;;
     cose_key <- COSEKey_from_jwk jwk ;;
     (* Decode and verify *)
     cose_verify cose_bytes cose_key)
    (fun e => match e with
              | StopIteration => Some (raise err_key_not_found)
              | CWTError _ => Some (raise err_verification_failed)
              | _ => None
              end) ;;;
  ret None.

(** The token bytes [make_cose_code] hands to [make_image]: the CBOR
    payload, its COSE_Sign1 envelope, and the versioned Base45 text. *)
Definition cose_code_payload (iss product id : string) (private_key : COSEKey)
  : M bytes :=
  let raw_data :=
    CMap [(CText "iss", CText iss); (CText "product", CText product);
          (CText "id", CText id)] in
  let cbor_data := Cbor.dumps raw_data in
  cose_encoded <- COSE_encode cbor_data private_key ;;
  ret (IOXIO_TAGS_HEADER ++ Base45.b45encode cose_encoded).

Definition make_cose_code (iss product id : string) (valid : bool)
  : M (string * bytes) :=
  private_key <-
    (if valid then
       if negb (iss =? conf_RSA_ISS (conf w))%string
       then raise CannotSignInvalidIssuer
       else ret RSA_PRIVATE_KEY
     else ret INVALID_PRIVATE_KEY) ;;
  (if valid then
     logger_info ("Making a COSE signed IOXIO Tag for iss " ++ iss ++ ", product "
                    ++ product ++ ", id " ++ id ++ ", with a valid signature")
   else
     logger_info ("Making a COSE signed IOXIO Tag for iss " ++ iss ++ ", product "
                    ++ product ++ ", id " ++ id ++ ", with an invalid signature")) ;;;
  pl <- cose_code_payload iss product id private_key ;;
  let filename :=
    if valid then make_image_filename iss product id "signed"
    else make_image_filename iss product id "invalid" in
  img <- make_image pl "secure" ;;
  ret (filename, img).

End Program.

(** ** A small world to run the program in

    The issuer [acme.example] publishes its descriptor and one RS256 key
    named [acme-key-1]. The signature primitive of this world is a stand-in:
    a signature is the key's secret followed by a checksum of the message, and
    a public key carries, in its [n] member, the secret that it accepts. *)

Module Demo.

Definition bytes_eqb (a b : bytes) : bool :=
  if list_eq_dec Byte.byte_eq_dec a b then true else false.

Definition secret_of (k : key_material) : bytes :=
  match k with
  | PrivatePEM pem => str_encode pem
  | PublicJWK (JObj fields) =>
      match dict_get "n" fields with
      | Some (JStr n) => str_encode n
      | _ => []
      end
  | PublicJWK _ => []
  end.

Definition checksum (msg : bytes) : bytes :=
  let s := fold_left (fun acc b => (acc + Byte.to_N b)%N) msg 0%N in
  [byte_of_N (s / 256); byte_of_N s].

Definition sign (k : key_material) (msg : bytes) : bytes :=
  secret_of k ++ checksum msg.

Definition verify (k : key_material) (msg sig : bytes) : bool :=
  bytes_eqb sig (secret_of k ++ checksum msg).

Definition params_ok (fields : list (string * json)) : bool :=
  match dict_get "kty" fields, dict_get "n" fields, dict_get "e" fields with
  | Some (JStr "RSA"), Some (JStr _), Some (JStr _) => true
  | _, _, _ => false
  end.

Definition acme_jwk : json :=
  JObj [("kty", JStr "RSA"); ("kid", JStr "acme-key-1"); ("alg", JStr "RS256");
        ("n", JStr "acme-secret"); ("e", JStr "AQAB")].

(** The key of the issuer, published without its identifier. *)
Definition acme_jwk_without_kid : json :=
  JObj [("kty", JStr "RSA"); ("alg", JStr "RS256");
        ("n", JStr "acme-secret"); ("e", JStr "AQAB")].

(** A key with the right identifier under another algorithm name. *)
Definition acme_jwk_other_alg : json :=
  JObj [("kty", JStr "RSA"); ("kid", JStr "acme-key-1"); ("alg", JStr "PS256");
        ("n", JStr "acme-secret"); ("e", JStr "AQAB")].

Definition acme_passport : json :=
  JObj [("jwks_uri", JStr "https://acme.example/jwks.json");
        ("logo_url", JStr "https://acme.example/logo.png");
        ("product_dataspace", JStr "sandbox.example")].

(** A descriptor that parses as JSON and lacks [jwks_uri]. *)
Definition broken_passport : json :=
  JObj [("logo_url", JStr "https://acme.example/logo.png");
        ("product_dataspace", JStr "sandbox.example")].

Definition network (passport : outcome json) (jwks : outcome json) (uri : string)
  : outcome json :=
  if (uri =? "https://acme.example/.well-known/product-passport.json")%string
  then passport
  else if (uri =? "https://acme.example/jwks.json")%string then jwks
  else Raises HTTPError.

Definition world_with (passport jwks : outcome json) : World :=
  {| conf := {| conf_RSA_PRIVATE_KEY := "acme-secret";
                conf_RSA_KID := "acme-key-1";
                conf_RSA_ISS := "acme.example" |};
     INVALID_KEY_DATA := "other-secret";
     DUMMY_JWK := [("kty", JStr "RSA"); ("n", JStr "dummy"); ("e", JStr "AQAB")];
     rsa_sign := sign;
     rsa_verify := verify;
     jwk_params_ok := params_ok;
     http_get_json := network passport jwks;
     now := 1700000000%Z;
     slugify := fun s => s;
     qr_image := fun pl => Returns pl |}.

Definition world : World :=
  world_with (Returns acme_passport) (Returns (JObj [("keys", JArr [acme_jwk])])).

(** The token text for [acme.example], [widget], [12345] under the
    configured key, and the one under the invalid key. *)
Definition token_valid : string :=
  "IT1:RRQ5 8/60V500GK6I9SPCQZC/PDGEFWA6PH5OPCZQEPVDSPCRZCB$CBECP9E* CV9EV3E $E8WEE4F8VC7$C%JC6VC*96DL6AX61ECF$DPX5Z CZKEJUEA0".

(** A token whose protected header names the algorithm -7 (ES256), which
    [ALGS] does not list. *)
Definition token_es256 : string :=
  "IT1:RRQXO8O600GK6I9SPCQZC/PDGEFWA6PH5OPCZQEPVDSPCRZCB$CBECP9E* CV9EV3E $E8WEE4F8VC7$C%JC6VC*96DL60X6PQED2".

Definition token_invalid : string :=
  "IT1:RRQ5 8/60V500GK6I9SPCQZC/PDGEFWA6PH5OPCZQEPVDSPCRZCB$CBECP9E* CV9EV3E $E8WEE4F8VC7$C%JC6VC*96DL6BX624E+8DOJELQEXPC7$C3-2".

End Demo.

(** ** The vocabulary of the statements *)

(** The envelope of a COSE_Sign1 message. *)
Definition sign1 (p : bytes) (u : list (cbor * cbor)) (pl sig : bytes) : cbor :=
  CTag 18 (CArray [CBytes p; CMap u; CBytes pl; CBytes sig]).

(** The protected header every key of the program writes. *)
Definition protected_rs256 : bytes := Cbor.dumps (CMap [(CInt 1, CInt (-257))]).

Definition kid_header (kid : bytes) : list (cbor * cbor) :=
  match kid with
  | [] => []
  | _ => [(CInt 4, CBytes kid)]
  end.

(** The claims [make_cose_code] serialises. *)
Definition raw_data (iss product id : string) : cbor :=
  CMap [(CText "iss", CText iss); (CText "product", CText product);
        (CText "id", CText id)].

(** A string short enough for a CBOR length. *)
Definition short (b : bytes) : Prop := Cbor.fits (N.of_nat (List.length b)).

(** Whether a key of a key-set carries both hints, and whether both equal
    the hints of a token. *)
Definition jwk_has_hints (j : json) : bool :=
  match j with
  | JObj fields =>
      match dict_get "kid" fields, dict_get "alg" fields with
      | Some _, Some _ => true
      | _, _ => false
      end
  | _ => false
  end.

Definition jwk_matches (kid alg : string) (j : json) : bool :=
  match j with
  | JObj fields =>
      match dict_get "kid" fields, dict_get "alg" fields with
      | Some k, Some a => json_eq_str k kid && json_eq_str a alg
      | _, _ => false
      end
  | _ => false
  end.

Definition jwk_field_is (name value : string) (j : json) : bool :=
  match j with
  | JObj fields =>
      match dict_get name fields with
      | Some v => json_eq_str v value
      | None => false
      end
  | _ => false
  end.

(** The issuer [iss] publishes, in the world [w], a descriptor whose key-set
    document lists [keys]. *)
Definition publishes (w : World) (iss : string) (keys : list json) : Prop :=
  exists doc pp jwks_fields,
    http_get_json w (get_product_passport_uri iss) = Returns doc /\
    ProductPassport_new doc = ret pp /\
    http_get_json w (jwks_uri pp) = Returns (JObj jwks_fields) /\
    dict_get "keys" jwks_fields = Some (JArr keys).

(** The token [make_cose_code] mints for a payload under the private key
    read from [pem]: the serialised claims, the bytes that are signed, the
    signature, the envelope and the text. *)
Definition minted_payload (iss product id : string) : bytes :=
  Cbor.dumps (raw_data iss product id).

Definition minted_message (iss product id : string) : bytes :=
  Cbor.dumps (CArray [CText "Signature1"; CBytes protected_rs256; CBytes [];
                      CBytes (minted_payload iss product id)]).

Definition minted_signature (w : World) (pem iss product id : string) : bytes :=
  rsa_sign w (PrivatePEM pem) (minted_message iss product id).

Definition minted_envelope (w : World) (pem iss product id : string) : bytes :=
  Cbor.dumps (sign1 protected_rs256 (kid_header (str_encode (conf_RSA_KID (conf w))))
                (minted_payload iss product id)
                (minted_signature w pem iss product id)).

Definition minted_token (w : World) (pem iss product id : string) : bytes :=
  IOXIO_TAGS_HEADER ++ Base45.b45encode (minted_envelope w pem iss product id).

(** The key has a name, and every string of the token is short enough for
    a CBOR length. *)
Definition mintable (w : World) (pem iss product id : string) : Prop :=
  conf_RSA_KID (conf w) <> "" /\
  short (str_encode iss) /\ short (str_encode product) /\ short (str_encode id) /\
  short (str_encode (conf_RSA_KID (conf w))) /\
  short (minted_payload iss product id) /\
  short (minted_signature w pem iss product id).

(** The key the untrusted extractor pretends to have loads. *)
Definition dummy_key_loads (w : World) (kid : string) : Prop :=
  jwk_params_ok w (dict_set "alg" (JStr "RS256")
                     (dict_set "kid" (JStr kid) (DUMMY_JWK w))) = true.

(** Whether [cwt] loads the key parameters of a key of the key-set. *)
Definition jwk_usable (w : World) (j : json) : bool :=
  match j with
  | JObj fields => jwk_params_ok w fields
  | _ => false
  end.

(** The tail of [verify_code], from the key-set on. *)
Definition select_and_verify (w : World) (cose_bytes : bytes) (basics : CodeBasics)
  (keys : list json) : M (option CodePayload) :=
  try_except
    (jwk <- next_matching_jwk keys (kid basics) (alg basics) ;;
     cose_key <- COSEKey_from_jwk w jwk ;;
     cose_verify w cose_bytes cose_key)
    (fun e => match e with
              | StopIteration => Some (raise err_key_not_found)
              | CWTError _ => Some (raise err_verification_failed)
              | _ => None
              end) ;;;
  ret None.

Definition log_line (iss product id quality : string) : string :=
  "Making a COSE signed IOXIO Tag for iss " ++ iss ++ ", product " ++ product
    ++ ", id " ++ id ++ ", with " ++ quality ++ " signature".

(** What [make_cose_code] answers once the token is minted: the file name
    and the image, or the exception of the renderer. *)
Definition image_result (w : World) (filename : string) (token : bytes)
  : outcome (string * bytes) :=
  match qr_image w token with
  | Returns img => Returns (filename, img)
  | Raises e => Raises e
  end.

(** A computation that calls no collaborator. *)
Definition silent {A : Type} (m : M A) : Prop := trace_of m = [].

(** The check of a token under one key of the key-set, as [verify_code]
    runs it once the key is selected. *)
Definition check_with (w : World) (cose_bytes : bytes) (jwk : json)
  : M (option CodePayload) :=
  try_except
    (cose_key <- COSEKey_from_jwk w jwk ;;
     cose_verify w cose_bytes cose_key)
    (fun e => match e with
              | StopIteration => Some (raise err_key_not_found)
              | CWTError _ => Some (raise err_verification_failed)
              | _ => None
              end) ;;;
  ret None.

(** The machine-readable code of a failure: the [code] of a [TagsError];
    the other exceptions carry none. *)
Definition failure_code (e : exn) : option string :=
  match e with
  | TagsError _ code => Some code
  | _ => None
  end.

(** *** The envelopes the models of [cbor2], [cwt] and [pydantic] cover *)








(** ** Simple tags: [make_url_code] *)

Module Url.

(** The characters [urllib.parse.quote] never escapes: letters, digits and
    [_.-~]. *)
Definition always_safe (c : ascii) : bool :=
  let n := N_of_ascii c in
  ((65 <=? n) && (n <=? 90) || (97 <=? n) && (n <=? 122)
   || (48 <=? n) && (n <=? 57)
   || (n =? 95) || (n =? 46) || (n =? 45) || (n =? 126))%N.

Definition hex_digit (n : N) : ascii :=
  nth (N.to_nat n) (list_ascii_of_string "0123456789ABCDEF") "0"%char.

(** One byte of the UTF-8 text under [quote_plus]: kept, turned into [+]
    when it is a space, or escaped as [%XX]. *)
Definition quote_char (c : ascii) : string :=
  if always_safe c then String c EmptyString
  else if Ascii.eqb c " "%char then "+"
  else String "%"%char
         (String (hex_digit (N_of_ascii c / 16))
            (String (hex_digit (N_of_ascii c mod 16)) EmptyString)).

(** [urllib.parse.quote_plus(s)]. *)
Fixpoint quote_plus (s : string) : string :=
  match s with
  | EmptyString => EmptyString
  | String c rest => quote_char c ++ quote_plus rest
  end.

(** The URL of a simple tag. *)
Definition tag_url (iss product id : string) : string :=
  "https://tags.ioxio.dev/q/"
    ++ quote_plus iss ++ "/" ++ quote_plus product ++ "/" ++ quote_plus id.

(** The value of a hexadecimal digit, and the reading of an escaped text;
    they serve the proofs only. *)
Definition hex_value (c : ascii) : N :=
  let n := N_of_ascii c in
  if (n <=? 57)%N then (n - 48)%N else (n - 55)%N.

Fixpoint unquote_plus (s : string) : string :=
  match s with
  | EmptyString => EmptyString
  | String c rest =>
      if Ascii.eqb c "%"%char then
        match rest with
        | String h (String l rest') =>
            String (ascii_of_N (hex_value h * 16 + hex_value l)) (unquote_plus rest')
        | _ => EmptyString
        end
      else String (if Ascii.eqb c "+"%char then " "%char else c) (unquote_plus rest)
  end.

(** The characters of an escaped text. *)
Definition url_char (c : ascii) : bool :=
  always_safe c || Ascii.eqb c "+"%char || Ascii.eqb c "%"%char.

Fixpoint all_chars (p : ascii -> bool) (s : string) : bool :=
  match s with
  | EmptyString => true
  | String c rest => p c && all_chars p rest
  end.

End Url.

Definition make_url_code (w : World) (iss product id : string)
  : M (string * bytes) :=
  logger_info ("Making a simple IOXIO Tag for iss " ++ iss ++ ", product " ++ product
                 ++ ", id " ++ id ++ ", in URL format") ;;;
  let url := Url.tag_url iss product id in
  let filename := make_image_filename w iss product id "simple" in
  img <- make_image w (str_encode url) "simple" ;;
  ret (filename, img).

(** ** File names: [slugify] *)

Module Slug.

Definition in_range (lo hi : N) (c : ascii) : bool :=
  ((lo <=? N_of_ascii c) && (N_of_ascii c <=? hi))%N.

(** [c.lower()] on an ASCII character. *)
Definition lower (c : ascii) : ascii :=
  if in_range 65 90 c then ascii_of_N (N_of_ascii c + 32) else c.

(** [\w] and [\s] on ASCII characters: word characters are letters, digits
    and the underscore; whitespace is tab to carriage return, the four
    separators 28 to 31, and the space. *)
Definition is_word (c : ascii) : bool :=
  in_range 97 122 c || in_range 65 90 c || in_range 48 57 c
  || Ascii.eqb c "_"%char.

Definition is_space (c : ascii) : bool :=
  in_range 9 13 c || in_range 28 31 c || Ascii.eqb c " "%char.

(** The class [[.\w\s-]]: what the first substitution keeps. *)
Definition kept (c : ascii) : bool :=
  Ascii.eqb c "."%char || is_word c || is_space c || Ascii.eqb c "-"%char.

(** The class [[-\s]]: what the second substitution collapses. *)
Definition separator (c : ascii) : bool :=
  Ascii.eqb c "-"%char || is_space c.

(** [re.sub(r'[-\s]+', '-', value)]: every maximal run of separators becomes
    one hyphen; [in_run] tells that the run has begun. *)
Fixpoint collapse (in_run : bool) (l : list ascii) : list ascii :=
  match l with
  | [] => []
  | c :: rest =>
      if separator c then
        if in_run then collapse true rest else "-"%char :: collapse true rest
      else c :: collapse false rest
  end.

(** The characters [strip('-_')] removes at both ends. *)
Definition stripped (c : ascii) : bool :=
  Ascii.eqb c "-"%char || Ascii.eqb c "_"%char.

Fixpoint lstrip (l : list ascii) : list ascii :=
  match l with
  | [] => []
  | c :: rest => if stripped c then lstrip rest else l
  end.

Fixpoint rstrip (l : list ascii) : list ascii :=
  match l with
  | [] => []
  | c :: rest =>
      match rstrip rest with
      | [] => if stripped c then [] else [c]
      | r => c :: r
      end
  end.

(** [slugify(value)] with [allow_unicode=False]. [ascii_fold] is the step
    [unicodedata.normalize('NFKD', value).encode('ascii', 'ignore').decode('ascii')],
    whose result is ASCII text. *)
Definition slugify (ascii_fold : string -> string) (value : string) : string :=
  let value := ascii_fold value in
  let value := filter kept (map lower (list_ascii_of_string value)) in
  string_of_list_ascii (rstrip (lstrip (collapse false value))).

(** The characters of a slug: lower-case letters, digits, [_], [.], [-]. *)
Definition slug_char (c : ascii) : bool :=
  in_range 97 122 c || in_range 48 57 c || Ascii.eqb c "_"%char
  || Ascii.eqb c "."%char || Ascii.eqb c "-"%char.

Definition hyphen (c : ascii) : bool := Ascii.eqb c "-"%char.

(** No two hyphens side by side. *)
Fixpoint no_double_hyphen (l : list ascii) : bool :=
  match l with
  | a :: (b :: _) as rest => negb (hyphen a && hyphen b) && no_double_hyphen rest
  | _ => true
  end.

Definition first_ok (l : list ascii) : bool :=
  match l with
  | [] => true
  | c :: _ => negb (stripped c)
  end.

Fixpoint last_ok (l : list ascii) : bool :=
  match l with
  | [] => true
  | [c] => negb (stripped c)
  | _ :: rest => last_ok rest
  end.

Definition head_hyphen (l : list ascii) : bool :=
  match l with
  | c :: _ => hyphen c
  | [] => false
  end.

End Slug.

(** ** Display metadata: [fetch_metadata] *)

Record ProductMetadata : Type := {
  names : list (string * string);
  image_url : string;
  supported_dataproducts : list (list (string * json))
}.

(** The response of [app.routes.tag], as [fetch_metadata] fills it. *)
Record MetadataV1Response : Type := {
  response_logo_url : string;
  response_product_dataspace : string;
  response_names : list (string * string);
  response_image_url : string;
  response_supported_dataproducts : list (list (string * json))
}.

(** [AttributeError] is the one exception of [fetch_metadata] that [exn]
    does not list. Nothing in [fetch_metadata] catches it, so a computation
    that raises it ends there: it is kept as a result of its own. *)
Inductive escaping (A : Type) : Type :=
| Done (a : A)
| AttributeError.
Arguments Done {A} a.
Arguments AttributeError {A}.

Fixpoint all_texts (fields : list (string * json)) : option (list (string * string)) :=
  match fields with
  | [] => Some []
  | (k, JStr v) :: rest =>
      match all_texts rest with
      | Some r => Some ((k, v) :: r)
      | None => None
      end
  | _ => None
  end.

Fixpoint all_objects (l : list json) : option (list (list (string * json))) :=
  match l with
  | [] => Some []
  | JObj fields :: rest =>
      match all_objects rest with
      | Some r => Some (fields :: r)
      | None => None
      end
  | _ => None
  end.

(** [ProductMetadata] built from the document passed as keyword arguments:
    [names] maps texts to texts, [image_url] is a text,
    [supported_dataproducts] a list of objects. *)
Definition ProductMetadata_new (doc : json) : M ProductMetadata :=
  match doc with
  | JObj fields =>
      match dict_get "names" fields, dict_get "image_url" fields,
            dict_get "supported_dataproducts" fields with
      | Some (JObj ns), Some (JStr u), Some (JArr l) =>
          match all_texts ns, all_objects l with
          | Some ns', Some l' =>
              ret {| names := ns'; image_url := u; supported_dataproducts := l' |}
          | _, _ => raise ValidationError
          end
      | _, _, _ => raise ValidationError
      end
  | _ => raise TypeError
  end.

(** The truth value of a JSON value in a condition. *)
Definition truthy (j : json) : bool :=
  match j with
  | JNull => false
  | JBool b => b
  | JNum z => negb (z =? 0)%Z
  | JStr s => negb (s =? "")%string
  | JArr l => match l with [] => false | _ => true end
  | JObj f => match f with [] => false | _ => true end
  end.

(** Whether a JSON value can be the key of a [dict]. *)
Definition hashable (j : json) : bool :=
  match j with
  | JArr _ | JObj _ => false
  | _ => true
  end.

(** The list comprehension of [fetch_metadata]: the supported data products
    whose [path] the gateway's OpenAPI paths define, each with the [name]
    and the [description] of its POST operation put before its own
    members. *)
Fixpoint supported_dataproducts_of (sdp_definitions : json)
  (sdps : list (list (string * json)))
  : M (escaping (list (list (string * json)))) :=
  match sdps with
  | [] => ret (Done [])
  | sdp :: rest =>
      match sdp_definitions with
      | JObj defs =>
          path <- json_getitem (JObj sdp) "path" ;;
          if hashable path then
            let found := match path with
                         | JStr p => dict_get p defs
                         | _ => None
                         end in
            match found with
            | Some found_sdp =>
                if truthy found_sdp then
                  post <- json_getitem found_sdp "post" ;;
                  summary <- json_getitem post "summary" ;;
                  post' <- json_getitem found_sdp "post" ;;
                  description <- json_getitem post' "description" ;;
                  others <- supported_dataproducts_of sdp_definitions rest ;;
                  match others with
                  | Done l =>
                      ret (Done ((("name", summary) :: ("description", description)
                                    :: sdp) :: l))
                  | AttributeError => ret AttributeError
                  end
                else supported_dataproducts_of sdp_definitions rest
            | None => supported_dataproducts_of sdp_definitions rest
            end
          else raise TypeError
      | _ => ret AttributeError
      end
  end.

Definition err_failed_to_fetch_metadata : exn :=
  TagsError "Failed to fetch metadata, or validation failed."
            "failed_to_fetch_metadata".

Definition err_gateway_not_found : exn :=
  TagsError "Product gateway URL not found in dataspace configuration."
            "failed_to_fetch_metadata".

Section FetchMetadata.

Variable w : World.

(** [app.dataproduct.get_dataspace_configuration]: the configuration of a
    dataspace, or the exception of the call. *)
Variable get_dataspace_configuration : string -> outcome json.

(** Python's [str()] on a JSON value that is not a text. *)
Variable py_str : json -> string.

(** Which of the two fetches under [asyncio.gather] fails first when both
    fail. *)
Variable passport_fails_first : bool.

Definition logger_exception (msg : string) : M unit := emit (EvLog msg).

(** [await asyncio.gather(fetch_json_file(a), fetch_json_file(b))]: both
    fetches are started; the first exception raised is the one of the
    call. *)
Definition gather_fetches (a b : string) : M (json * json) :=
  emit (EvFetch a) ;;;
  emit (EvFetch b) ;;;
  match http_get_json w a, http_get_json w b with
  | Returns x, Returns y => ret (x, y)
  | Raises e, Returns _ => raise e
  | Returns _, Raises e => raise e
  | Raises e1, Raises e2 => raise (if passport_fails_first then e1 else e2)
  end.

Definition fetch_metadata (iss product : string) : M (escaping MetadataV1Response) :=
  let product_passport_uri := get_product_passport_uri iss in
  let product_uri := get_product_metadata_uri iss product in
  fetched <-
    try_except
      (docs <- gather_fetches product_passport_uri product_uri ;;
       product_passport <- ProductPassport_new (fst docs) ;;
       product_metadata <- ProductMetadata_new (snd docs) ;;
       ret (product_passport, product_metadata))
      (fun e => match e with
                | HTTPError =>
                    Some (logger_exception ("Failed to fetch metadata for " ++ iss) ;;;
                          raise err_failed_to_fetch_metadata)
                | _ => None
                end) ;;
  let product_passport := fst fetched in
  let product_metadata := snd fetched in
  gateway <-
    try_except
      (config <- lift (get_dataspace_configuration (product_dataspace product_passport)) ;;
       json_getitem config "product_gateway_url")
      (fun e => match e with
                | KeyError =>
                    Some (logger_exception
                            ("product_gateway_url not found in "
                               ++ product_dataspace product_passport ++ " configuration") ;;;
                          raise err_gateway_not_found)
                | _ => None
                end) ;;
  let gateway_text := match gateway with
                      | JStr s => s
                      | other => py_str other
                      end in
  pgw_openapi <- fetch_json_file w (gateway_text ++ "/openapi.json") ;;
  match pgw_openapi with
  | JObj fields =>
      let sdp_definitions := match dict_get "paths" fields with
                             | Some v => v
                             | None => JObj []
                             end in
      listed <- supported_dataproducts_of sdp_definitions
                  (supported_dataproducts product_metadata) ;;
      match listed with
      | Done l =>
          ret (Done {| response_logo_url := logo_url product_passport;
                       response_product_dataspace := product_dataspace product_passport;
                       response_names := names product_metadata;
                       response_image_url := image_url product_metadata;
                       response_supported_dataproducts := l |})
      | AttributeError => ret AttributeError
      end
  | _ => ret AttributeError
  end.

End FetchMetadata.

(** ** Vocabulary for [fetch_metadata] *)

(** The two documents of an issuer and a product are fetched and read. *)
Definition metadata_fetched (w : World) (iss product : string)
  (pp : ProductPassport) (pm : ProductMetadata) : Prop :=
  exists x y,
    http_get_json w (get_product_passport_uri iss) = Returns x /\
    http_get_json w (get_product_metadata_uri iss product) = Returns y /\
    ProductPassport_new x = ret pp /\
    ProductMetadata_new y = ret pm.

(** Whether the comprehension lists a supported data product: its [path] is
    a text that the OpenAPI paths map to a true value. *)
Definition listed (defs : list (string * json)) (sdp : list (string * json)) : bool :=
  match dict_get "path" sdp with
  | Some (JStr p) =>
      match dict_get p defs with
      | Some v => truthy v
      | None => false
      end
  | _ => false
  end.

(** The member [field] of the POST operation the OpenAPI paths give for a
    path. *)
Definition operation_member (defs : list (string * json)) (p field : string)
  : option json :=
  match dict_get p defs with
  | Some (JObj operations) =>
      match dict_get "post" operations with
      | Some (JObj post) => dict_get field post
      | _ => None
      end
  | _ => None
  end.

(** The text [f"{gateway}/openapi.json"] is made of. *)
Definition gateway_text (py_str : json -> string) (gateway : json) : string :=
  match gateway with
  | JStr s => s
  | other => py_str other
  end.

(** What the comprehension makes of a supported data product: the summary
    and the description of the POST operation of its path, then its own
    members. *)
Definition entry_of (defs : list (string * json)) (sdp e : list (string * json)) : Prop :=
  exists p s d,
    dict_get "path" sdp = Some (JStr p) /\
    operation_member defs p "summary" = Some s /\
    operation_member defs p "description" = Some d /\
    e = ("name", s) :: ("description", d) :: sdp.


(** ** Worlds for the examples *)

(** A world for [fetch_metadata]: the answers for the descriptor, the
    product document and the gateway's OpenAPI document. *)
Definition metadata_network (passport product openapi : outcome json) (uri : string)
  : outcome json :=
  if (uri =? "https://acme.example/.well-known/product-passport.json")%string
  then passport
  else if (uri =? "https://acme.example/.well-known/product-passport/products/widget.json")%string
  then product
  else if (uri =? "https://gateway.example/openapi.json")%string then openapi
  else Raises HTTPError.

Definition metadata_world (passport product openapi : outcome json) : World :=
  {| conf := conf Demo.world;
     INVALID_KEY_DATA := INVALID_KEY_DATA Demo.world;
     DUMMY_JWK := DUMMY_JWK Demo.world;
     rsa_sign := rsa_sign Demo.world;
     rsa_verify := rsa_verify Demo.world;
     jwk_params_ok := jwk_params_ok Demo.world;
     http_get_json := metadata_network passport product openapi;
     now := now Demo.world;
     slugify := slugify Demo.world;
     qr_image := qr_image Demo.world |}.

Definition widget_metadata : json :=
  JObj [("names", JObj [("en", JStr "Widget")]);
        ("image_url", JStr "https://acme.example/widget.png");
        ("supported_dataproducts",
         JArr [JObj [("path", JStr "/Battery/Status"); ("name", JStr "Own name")];
               JObj [("path", JStr "/Not/Offered")];
               JObj [("path", JStr "/Weather/Now")]])].

Definition gateway_openapi : json :=
  JObj [("paths",
         JObj [("/Weather/Now",
                JObj [("post", JObj [("summary", JStr "Weather");
                                     ("description", JStr "Current weather")])]);
               ("/Battery/Status",
                JObj [("post", JObj [("summary", JStr "Battery");
                                     ("description", JStr "Battery status")])])])].

Definition gateway_configuration (dataspace : string) : outcome json :=
  Returns (JObj [("product_gateway_url", JStr "https://gateway.example")]).

(** The demonstration world with the [slugify] of [tag.py], on ASCII text. *)
Definition slug_world : World :=
  {| conf := conf Demo.world;
     INVALID_KEY_DATA := INVALID_KEY_DATA Demo.world;
     DUMMY_JWK := DUMMY_JWK Demo.world;
     rsa_sign := rsa_sign Demo.world;
     rsa_verify := rsa_verify Demo.world;
     jwk_params_ok := jwk_params_ok Demo.world;
     http_get_json := http_get_json Demo.world;
     now := now Demo.world;
     slugify := Slug.slugify (fun s => s);
     qr_image := qr_image Demo.world |}.

Definition widget_response : MetadataV1Response :=
  {| response_logo_url := "https://acme.example/logo.png";
     response_product_dataspace := "sandbox.example";
     response_names := [("en", "Widget")];
     response_image_url := "https://acme.example/widget.png";
     response_supported_dataproducts :=
       [[("name", JStr "Battery"); ("description", JStr "Battery status");
         ("path", JStr "/Battery/Status"); ("name", JStr "Own name")];
        [("name", JStr "Weather"); ("description", JStr "Current weather");
         ("path", JStr "/Weather/Now")]] |}.


(** ** Vocabulary for the decoder and for traces *)

(** The line feed [b45decode] strips. *)
Definition newline : ascii := ascii_of_N 10.

(** Every call a computation makes satisfies [P]. *)
Definition emits_only {A : Type} (P : event -> Prop) (m : M A) : Prop :=
  forall ev, In ev (trace_of m) -> P ev.

Definition is_check (ev : event) : Prop :=
  exists m msg sig, ev = EvVerify m msg sig.

(** * Properties *)

(** ** Bytes *)

Lemma byte_of_to_N (b : byte) : byte_of_N (Byte.to_N b) = b.
Proof.
  unfold byte_of_N.
  pose proof (Byte.to_N_bounded b) as Hb.
  rewrite N.mod_small by lia.
  now rewrite Byte.of_to_N.
Qed.

Lemma to_N_lt_256 (b : byte) : (Byte.to_N b < 256)%N.
Proof. pose proof (Byte.to_N_bounded b). lia. Qed.

Lemma bytes_decode_encode (s : string) : bytes_decode (str_encode s) = s.
Proof. apply string_of_list_byte_of_string. Qed.

Lemma str_encode_decode (b : bytes) : str_encode (bytes_decode b) = b.
Proof. apply list_byte_of_string_of_list_byte. Qed.

(** ** Base45 *)

Module Base45Facts.
Import Base45.

Lemma encode_chars_values (buf : bytes) :
  encode_chars buf = map charset (encode_values buf).
Proof.
  revert buf.
  fix IH 1. intros [|b0 [|b1 rest]]; try reflexivity.
  cbn [encode_chars encode_values map]. now rewrite IH.
Qed.

Lemma pairs_ind (A : Type) (P : list A -> Prop) :
  P [] -> (forall a, P [a]) -> (forall a b l, P l -> P (a :: b :: l)) ->
  forall l, P l.
Proof.
  intros H0 H1 H2. fix IH 1.
  intros [|a [|b l]]; [exact H0 | exact (H1 a) | exact (H2 a b l (IH l))].
Qed.

Lemma charset_table (k : nat) :
  (k < 45)%nat ->
  BASE45_DICT (charset (N.of_nat k)) = Some (N.of_nat k) /\
  is_newline (charset (N.of_nat k)) = false.
Proof.
  intros Hk.
  do 45 (destruct k as [|k]; [split; vm_compute; reflexivity|]).
  lia.
Qed.

Lemma dict_charset (n : N) : (n < 45)%N -> BASE45_DICT (charset n) = Some n.
Proof.
  intros Hn. rewrite <- (N2Nat.id n). apply charset_table. lia.
Qed.

Lemma charset_not_newline (n : N) : (n < 45)%N -> is_newline (charset n) = false.
Proof.
  intros Hn. rewrite <- (N2Nat.id n). apply charset_table. lia.
Qed.

Lemma encode_values_lt (buf : bytes) :
  Forall (fun v => (v < 45)%N) (encode_values buf).
Proof.
  induction buf as [|a|a b l IH] using pairs_ind; cbn [encode_values].
  - constructor.
  - pose proof (to_N_lt_256 a).
    repeat constructor.
    + apply N.mod_lt; lia.
    + apply N.Div0.div_lt_upper_bound; lia.
  - pose proof (to_N_lt_256 a). pose proof (to_N_lt_256 b).
    repeat constructor; try exact IH.
    + apply N.mod_lt; lia.
    + apply N.Div0.div_lt_upper_bound.
      assert ((Byte.to_N a * 256 + Byte.to_N b) mod (45 * 45) < 45 * 45)%N
        by (apply N.mod_lt; lia). lia.
    + apply N.Div0.div_lt_upper_bound. lia.
Qed.

Lemma rstrip_no_newline (l : list ascii) :
  Forall (fun c => is_newline c = false) l -> rstrip_newline l = l.
Proof.
  induction 1 as [|c l Hc Hl IH]; [reflexivity|].
  cbn [rstrip_newline]. rewrite IH, Hc. now destruct l.
Qed.

Lemma lookup_all_charset (vs : list N) :
  Forall (fun v => (v < 45)%N) vs -> lookup_all (map charset vs) = Some vs.
Proof.
  induction 1 as [|v vs Hv Hvs IH]; [reflexivity|].
  cbn [map lookup_all]. now rewrite (dict_charset v Hv), IH.
Qed.

Lemma encode_values_length (buf : bytes) :
  (List.length (encode_values buf) mod 3 =? 1)%nat = false.
Proof.
  induction buf as [|a|a b l IH] using pairs_ind; try reflexivity.
  cbn [encode_values List.length].
  replace (S (S (S (List.length (encode_values l)))))
    with (List.length (encode_values l) + 1 * 3)%nat by lia.
  now rewrite Nat.Div0.mod_add.
Qed.

Lemma decode_encode_values (buf : bytes) :
  decode_values (encode_values buf) = Some buf.
Proof.
  induction buf as [|a|a b l IH] using pairs_ind.
  - reflexivity.
  - cbn [encode_values decode_values].
    pose proof (to_N_lt_256 a) as Ha.
    replace (Byte.to_N a mod 45 + Byte.to_N a / 45 * 45)%N with (Byte.to_N a)
      by (rewrite (N.div_mod' (Byte.to_N a) 45) at 1; lia).
    replace (255 <? Byte.to_N a)%N with false by (symmetry; apply N.ltb_ge; lia).
    now rewrite byte_of_to_N.
  - cbn [encode_values decode_values].
    pose proof (to_N_lt_256 a) as Ha. pose proof (to_N_lt_256 b) as Hb.
    set (x := (Byte.to_N a * 256 + Byte.to_N b)%N).
    replace ((x mod (45 * 45)) mod 45 + (x mod (45 * 45)) / 45 * 45
             + x / (45 * 45) * 45 * 45)%N with x.
    2:{ rewrite (N.div_mod' x (45 * 45)) at 1.
        rewrite (N.div_mod' (x mod (45 * 45)) 45) at 1. lia. }
    replace (65535 <? x)%N with false by (symmetry; apply N.ltb_ge; unfold x; lia).
    rewrite IH.
    replace (x / 256)%N with (Byte.to_N a).
    2:{ unfold x. rewrite N.div_add_l by lia. rewrite N.div_small by lia. lia. }
    replace (x mod 256)%N with (Byte.to_N b).
    2:{ unfold x. rewrite N.add_comm, N.Div0.mod_add. now rewrite N.mod_small. }
    now rewrite !byte_of_to_N.
Qed.

Lemma b45decode_str_b45encode (buf : bytes) :
  b45decode_str (bytes_decode (b45encode buf)) = Some buf.
Proof.
  unfold b45decode_str, b45encode.
  rewrite bytes_decode_encode, list_ascii_of_string_of_list_ascii.
  rewrite encode_chars_values.
  pose proof (encode_values_lt buf) as Hlt.
  rewrite rstrip_no_newline.
  2:{ apply Forall_map. eapply Forall_impl; [|exact Hlt].
      intros v Hv. now apply charset_not_newline. }
  rewrite (lookup_all_charset _ Hlt), encode_values_length.
  apply decode_encode_values.
Qed.

End Base45Facts.

(** ** CBOR *)

Module CborFacts.
Import Cbor.

Lemma to_N_byte_of_N (n : N) : Byte.to_N (byte_of_N n) = (n mod 256)%N.
Proof.
  unfold byte_of_N.
  assert (n mod 256 < 256)%N as H by (apply N.mod_lt; lia).
  destruct (Byte.of_N (n mod 256)) as [b|] eqn:E.
  - now apply Byte.to_of_N.
  - apply Byte.of_N_None_iff in E. lia.
Qed.

Lemma length_be_bytes (k : nat) (n : N) : List.length (be_bytes k n) = k.
Proof. induction k; cbn [be_bytes List.length]; congruence. Qed.

Lemma fold_be_bytes (k : nat) (n a : N) :
  fold_left (fun acc b => (acc * 256 + Byte.to_N b)%N) (be_bytes k n) a
  = (a * 256 ^ N.of_nat k + n mod 256 ^ N.of_nat k)%N.
Proof.
  revert a. induction k as [|k IH]; intros a.
  - cbn [be_bytes fold_left N.of_nat]. rewrite N.pow_0_r, N.mod_1_r. lia.
  - cbn [be_bytes fold_left]. rewrite IH, to_N_byte_of_N.
    rewrite Nat2N.inj_succ, N.pow_succ_r'.
    rewrite (N.mul_comm 256 (256 ^ N.of_nat k)).
    rewrite (N.Div0.mod_mul_r n (256 ^ N.of_nat k) 256). lia.
Qed.

Lemma be_value_be_bytes (k : nat) (n : N) :
  (n < 256 ^ N.of_nat k)%N -> be_value (be_bytes k n) = n.
Proof.
  intros Hn. unfold be_value. rewrite fold_be_bytes.
  rewrite N.mod_small by exact Hn. lia.
Qed.

Lemma firstn_length_app (A : Type) (a b : list A) :
  firstn (List.length a) (a ++ b) = a.
Proof. induction a; cbn; congruence. Qed.

Lemma skipn_length_app (A : Type) (a b : list A) :
  skipn (List.length a) (a ++ b) = b.
Proof. induction a; cbn; congruence. Qed.

Lemma read_be_bytes (k : nat) (n : N) (tail : bytes) :
  (n < 256 ^ N.of_nat k)%N ->
  (if (List.length (be_bytes k n ++ tail) <? k)%nat then None
   else Some (be_value (firstn k (be_bytes k n ++ tail)),
              skipn k (be_bytes k n ++ tail))) = Some (n, tail).
Proof.
  intros Hn.
  replace (List.length (be_bytes k n ++ tail) <? k)%nat with false.
  2:{ symmetry. apply Nat.ltb_ge. rewrite length_app, length_be_bytes. lia. }
  rewrite <- (length_be_bytes k n) at 1 3.
  rewrite firstn_length_app, skipn_length_app.
  now rewrite be_value_be_bytes.
Qed.

(** The head of an item reads back as its major type and its argument. *)
Lemma decode_encode_head (major n : N) (tail : bytes) :
  (major < 8)%N -> fits n ->
  exists b rest,
    encode_head major n ++ tail = b :: rest /\
    (Byte.to_N b / 32 = major)%N /\
    decode_arg (Byte.to_N b mod 32) rest = Some (n, tail).
Proof.
  intros Hm Hn. unfold fits in Hn. unfold encode_head.
  assert (forall i, (i < 32)%N ->
            (Byte.to_N (byte_of_N (major * 32 + i)) / 32 = major)%N /\
            (Byte.to_N (byte_of_N (major * 32 + i)) mod 32 = i)%N) as Hhead.
  { intros i Hi. rewrite to_N_byte_of_N, N.mod_small by lia.
    rewrite (N.add_comm (major * 32) i). split.
    - rewrite N.div_add by lia. rewrite N.div_small by lia. lia.
    - rewrite N.Div0.mod_add. now apply N.mod_small. }
  destruct (n <? 24)%N eqn:E24.
  { apply N.ltb_lt in E24. destruct (Hhead n) as [H1 H2]; [lia|].
    eexists _, _. split; [reflexivity|]. split; [exact H1|].
    rewrite H2. unfold decode_arg.
    replace (n <? 24)%N with true by (symmetry; now apply N.ltb_lt).
    reflexivity. }
  apply N.ltb_ge in E24.
  destruct (n <? 256)%N eqn:E8.
  { apply N.ltb_lt in E8. destruct (Hhead 24%N) as [H1 H2]; [lia|].
    eexists _, _. split; [reflexivity|]. split; [exact H1|].
    rewrite H2. unfold decode_arg. cbn [N.ltb N.eqb N.compare Pos.compare Pos.compare_cont Pos.eqb].
    apply (read_be_bytes 1). exact E8. }
  apply N.ltb_ge in E8.
  destruct (n <? 65536)%N eqn:E16.
  { apply N.ltb_lt in E16. destruct (Hhead 25%N) as [H1 H2]; [lia|].
    eexists _, _. split; [reflexivity|]. split; [exact H1|].
    rewrite H2. unfold decode_arg. cbn [N.ltb N.eqb N.compare Pos.compare Pos.compare_cont Pos.eqb].
    apply (read_be_bytes 2). exact E16. }
  apply N.ltb_ge in E16.
  destruct (n <? 4294967296)%N eqn:E32.
  { apply N.ltb_lt in E32. destruct (Hhead 26%N) as [H1 H2]; [lia|].
    eexists _, _. split; [reflexivity|]. split; [exact H1|].
    rewrite H2. unfold decode_arg. cbn [N.ltb N.eqb N.compare Pos.compare Pos.compare_cont Pos.eqb].
    apply (read_be_bytes 4). exact E32. }
  destruct (Hhead 27%N) as [H1 H2]; [lia|].
  eexists _, _. split; [reflexivity|]. split; [exact H1|].
  rewrite H2. unfold decode_arg. cbn [N.ltb N.eqb N.compare Pos.compare Pos.compare_cont Pos.eqb].
  apply (read_be_bytes 8). exact Hn.
Qed.

Lemma encode_head_nonempty (major n : N) :
  (1 <= List.length (encode_head major n))%nat.
Proof.
  unfold encode_head.
  repeat match goal with |- context [if ?c then _ else _] => destruct c end;
    cbn [List.length]; lia.
Qed.

Lemma take_app (a b : bytes) :
  take (N.of_nat (List.length a)) (a ++ b) = Some (a, b).
Proof.
  unfold take.
  replace (N.of_nat (List.length (a ++ b)) <? N.of_nat (List.length a))%N with false.
  2:{ symmetry. apply N.ltb_ge. rewrite length_app. lia. }
  now rewrite Nat2N.id, firstn_length_app, skipn_length_app.
Qed.

Lemma encode_array (items : list cbor) :
  encode (CArray items)
  = encode_head 4 (N.of_nat (List.length items)) ++ encode_all items.
Proof.
  reflexivity.
Qed.

Lemma length_flatten (entries : list (cbor * cbor)) :
  List.length (flatten entries) = (2 * List.length entries)%nat.
Proof.
  induction entries as [|[k v] r IH]; cbn [flatten List.length]; lia.
Qed.

Lemma pair_up_flatten (entries : list (cbor * cbor)) :
  pair_up (flatten entries) = entries.
Proof.
  induction entries as [|[k v] r IH]; cbn [flatten pair_up]; congruence.
Qed.

Lemma encode_map (entries : list (cbor * cbor)) :
  encode (CMap entries)
  = encode_head 5 (N.of_nat (List.length entries)) ++ encode_all (flatten entries).
Proof.
  cbn [encode]. f_equal. induction entries as [|[k v] r IH]; [reflexivity|].
  cbn [flatten encode_all]. now rewrite <- IH, app_assoc.
Qed.

Lemma size_array (items : list cbor) : size (CArray items) = S (size_all items).
Proof.
  reflexivity.
Qed.

Lemma size_map (entries : list (cbor * cbor)) :
  size (CMap entries) = S (size_all (flatten entries)).
Proof.
  cbn [size]. f_equal. induction entries as [|[k v] r IH]; [reflexivity|].
  cbn [flatten size_all]. rewrite <- IH. lia.
Qed.

Lemma wf_array (items : list cbor) :
  wf (CArray items) <-> fits (N.of_nat (List.length items)) /\ wf_all items.
Proof.
  cbn [wf].
  assert ((fix all (l : list cbor) : Prop :=
             match l with [] => True | x :: r => wf x /\ all r end) items
          <-> wf_all items) as H.
  { induction items as [|x r IH]; [reflexivity|]. cbn [wf_all]. now rewrite <- IH. }
  now rewrite H.
Qed.

Lemma wf_map (entries : list (cbor * cbor)) :
  wf (CMap entries)
  <-> fits (N.of_nat (List.length entries)) /\ wf_all (flatten entries).
Proof.
  cbn [wf].
  assert ((fix all (l : list (cbor * cbor)) : Prop :=
             match l with [] => True | (k, x) :: r => wf k /\ wf x /\ all r end)
            entries
          <-> wf_all (flatten entries)) as H.
  { induction entries as [|[k v] r IH]; [reflexivity|].
    cbn [flatten wf_all]. now rewrite <- IH. }
  now rewrite H.
Qed.

Lemma size_pos (v : cbor) : (1 <= size v)%nat.
Proof. destruct v; cbn [size]; lia. Qed.

Lemma length_encode_all (l : list cbor) :
  (List.length l <= List.length (encode_all l))%nat.
Proof.
  induction l as [|x r IH]; cbn [encode_all List.length]; [lia|].
  rewrite length_app.
  assert (1 <= List.length (encode x))%nat.
  { destruct x; cbn [encode];
      repeat match goal with |- context [if ?c then _ else _] => destruct c end;
      rewrite ?length_app;
      match goal with |- context [encode_head ?m ?n] =>
        pose proof (encode_head_nonempty m n) end; lia. }
  lia.
Qed.

Ltac open_head major n tail :=
  let b := fresh "b" in
  let rest := fresh "rest" in
  let E := fresh "E" in
  let Hmaj := fresh "Hmaj" in
  let Harg := fresh "Harg" in
  destruct (decode_encode_head major n tail) as (b & rest & E & Hmaj & Harg);
  [lia | assumption | rewrite E; cbn [decode_seq]; rewrite Harg, Hmaj;
                      cbn [decode_item]].

(** Reading back what [encode] wrote: the items, and the bytes that
    followed them. *)
Lemma decode_seq_encode_all (fuel : nat) :
  forall (l : list cbor) (tail : bytes),
    wf_all l -> (size_all l <= fuel)%nat ->
    decode_seq fuel (List.length l) (encode_all l ++ tail) = Some (l, tail).
Proof.
  induction fuel as [|fuel IH]; intros l tail Hwf Hsz.
  - destruct l as [|v r]; [reflexivity|].
    cbn [size_all] in Hsz. pose proof (size_pos v). lia.
  - destruct l as [|v r]; [reflexivity|].
    cbn [size_all] in Hsz. cbn [wf_all] in Hwf. destruct Hwf as [Hv Hr].
    pose proof (size_pos v) as Hpos.
    assert (decode_seq fuel (List.length r) (encode_all r ++ tail) = Some (r, tail))
      as Hrest by (apply IH; [exact Hr | lia]).
    cbn [List.length encode_all]. rewrite <- app_assoc.
    destruct v as [z | b | s | items | entries | t x].
    + cbn [wf] in Hv. cbn [encode].
      destruct (0 <=? z)%Z eqn:Ez.
      * apply Z.leb_le in Ez.
        assert (fits (Z.to_N z)) by (unfold fits; lia).
        open_head 0%N (Z.to_N z) (encode_all r ++ tail).
        rewrite Hrest. now rewrite Z2N.id.
      * apply Z.leb_gt in Ez.
        assert (fits (Z.to_N (- 1 - z))) by (unfold fits; lia).
        open_head 1%N (Z.to_N (- 1 - z)) (encode_all r ++ tail).
        rewrite Hrest. rewrite Z2N.id by lia.
        now replace (- 1 - (- 1 - z))%Z with z by lia.
    + cbn [wf] in Hv. cbn [encode]. rewrite <- app_assoc.
      open_head 2%N (N.of_nat (List.length b)) (b ++ encode_all r ++ tail).
      now rewrite take_app, Hrest.
    + cbn [wf] in Hv. cbn [encode]. rewrite <- app_assoc.
      open_head 3%N (N.of_nat (List.length (str_encode s)))
        (str_encode s ++ encode_all r ++ tail).
      now rewrite take_app, Hrest, bytes_decode_encode.
    + apply wf_array in Hv. destruct Hv as [Hlen Hitems].
      rewrite size_array in Hsz.
      rewrite encode_array, <- app_assoc.
      open_head 4%N (N.of_nat (List.length items))
        (encode_all items ++ encode_all r ++ tail).
      replace (N.of_nat (List.length (encode_all items ++ encode_all r ++ tail))
               <? N.of_nat (List.length items))%N with false.
      2:{ symmetry. apply N.ltb_ge. rewrite length_app.
          pose proof (length_encode_all items). lia. }
      rewrite Nat2N.id, IH by (assumption || lia).
      now rewrite Hrest.
    + apply wf_map in Hv. destruct Hv as [Hlen Hentries].
      rewrite size_map in Hsz.
      rewrite encode_map, <- app_assoc.
      open_head 5%N (N.of_nat (List.length entries))
        (encode_all (flatten entries) ++ encode_all r ++ tail).
      replace (N.of_nat (List.length (encode_all (flatten entries) ++ encode_all r ++ tail))
               <? 2 * N.of_nat (List.length entries))%N with false.
      2:{ symmetry. apply N.ltb_ge. rewrite length_app.
          pose proof (length_encode_all (flatten entries)) as Hl.
          rewrite length_flatten in Hl. lia. }
      rewrite Nat2N.id, <- length_flatten, IH by (assumption || lia).
      now rewrite Hrest, pair_up_flatten.
    + cbn [wf] in Hv. destruct Hv as [Ht Hx]. cbn [size] in Hsz.
      cbn [encode]. rewrite <- app_assoc.
      open_head 6%N t (encode x ++ encode_all r ++ tail).
      pose proof (IH [x] (encode_all r ++ tail)) as Hone.
      cbn [List.length encode_all wf_all size_all] in Hone.
      rewrite app_nil_r in Hone.
      rewrite Hone by (try split; trivial; lia).
      now rewrite Hrest.
Qed.

Lemma size_le_length (fuel : nat) :
  forall l : list cbor,
    (size_all l <= fuel)%nat -> (size_all l <= List.length (encode_all l))%nat.
Proof.
  induction fuel as [|fuel IH]; intros l Hsz; [lia|].
  destruct l as [|v r]; [cbn; lia|].
  cbn [size_all encode_all] in *. rewrite length_app.
  pose proof (size_pos v) as Hpos.
  assert (size_all r <= List.length (encode_all r))%nat by (apply IH; lia).
  enough (size v <= List.length (encode v))%nat by lia.
  destruct v as [z | b | s | items | entries | t x].
  - cbn [size encode]. destruct (0 <=? z)%Z; apply encode_head_nonempty.
  - cbn [size encode]. rewrite length_app.
    pose proof (encode_head_nonempty 2 (N.of_nat (List.length b))). lia.
  - cbn [size encode]. rewrite length_app.
    pose proof (encode_head_nonempty 3 (N.of_nat (List.length (str_encode s)))). lia.
  - rewrite size_array in *. rewrite encode_array, length_app.
    pose proof (encode_head_nonempty 4 (N.of_nat (List.length items))).
    assert (size_all items <= List.length (encode_all items))%nat by (apply IH; lia).
    lia.
  - rewrite size_map in *. rewrite encode_map, length_app.
    pose proof (encode_head_nonempty 5 (N.of_nat (List.length entries))).
    assert (size_all (flatten entries) <= List.length (encode_all (flatten entries)))%nat
      by (apply IH; lia).
    lia.
  - cbn [size] in *. cbn [encode]. rewrite length_app.
    pose proof (encode_head_nonempty 6 t).
    pose proof (IH [x]) as Hx. cbn [size_all encode_all] in Hx.
    rewrite app_nil_r in Hx. lia.
Qed.

(** [cbor2.loads(cbor2.dumps(v)) == v]. *)
Lemma loads_dumps (v : cbor) : wf v -> loads (dumps v) = Some v.
Proof.
  intros Hv. unfold loads, dumps.
  pose proof (decode_seq_encode_all (S (List.length (encode v))) [v] []) as H.
  cbn [List.length encode_all wf_all size_all] in H.
  rewrite !app_nil_r in H. rewrite H; [reflexivity | now split |].
  pose proof (size_le_length (size v) [v]) as Hs.
  cbn [size_all encode_all] in Hs. rewrite app_nil_r in Hs. lia.
Qed.

End CborFacts.

(** ** Computations *)

Lemma bind_ret_l (A B : Type) (a : A) (f : A -> M B) : bind (ret a) f = f a.
Proof. unfold bind, ret, after. cbn. now destruct (f a). Qed.

Lemma bind_returns (A B : Type) (t : list event) (a : A) (f : A -> M B) :
  bind (t, Returns a) f = after t (f a).
Proof. reflexivity. Qed.

Lemma after_after (A : Type) (t1 t2 : list event) (m : M A) :
  after t1 (after t2 m) = after (t1 ++ t2) m.
Proof. unfold after. cbn [fst snd]. now rewrite app_assoc. Qed.

Lemma after_ret (A : Type) (t : list event) (a : A) :
  after t (ret a) = (t, Returns a).
Proof. unfold after, ret. cbn [fst snd]. now rewrite app_nil_r. Qed.

Lemma try_except_returns (A : Type) (t : list event) (a : A)
  (h : exn -> option (M A)) :
  try_except (t, Returns a) h = (t, Returns a).
Proof. reflexivity. Qed.

(** ** The wire text *)

Lemma bytes_decode_app (a b : bytes) :
  bytes_decode (a ++ b) = (bytes_decode a ++ bytes_decode b)%string.
Proof.
  unfold bytes_decode, string_of_list_byte.
  induction a as [|x a IH]; [reflexivity|]. cbn. now rewrite <- IH.
Qed.

(** The text of the bytes [make_cose_code] renders: the version marker and
    the Base45 text. *)
Lemma wire_text (cose_encoded : bytes) :
  bytes_decode (IOXIO_TAGS_HEADER ++ Base45.b45encode cose_encoded)
  = ("IT1:" ++ bytes_decode (Base45.b45encode cose_encoded))%string.
Proof. now rewrite bytes_decode_app. Qed.

Lemma startswith_marker (s : string) : startswith ("IT1:" ++ s) "IT1:" = true.
Proof. destruct s; vm_compute; reflexivity. Qed.

Lemma decode_wire_text (cose_encoded : bytes) :
  ioxio_tag_str_to_cose_bytes ("IT1:" ++ bytes_decode (Base45.b45encode cose_encoded))
  = ([EvB45Decode (bytes_decode (Base45.b45encode cose_encoded))],
     Returns cose_encoded).
Proof.
  unfold ioxio_tag_str_to_cose_bytes.
  rewrite startswith_marker, bind_ret_l.
  cbn [String.append str_drop]. unfold Base45.b45decode.
  rewrite Base45Facts.b45decode_str_b45encode. reflexivity.
Qed.

(** C2. Codec round trip: the wire text built as the version marker ["IT1:"]
    followed by the Base45 encoding of a byte string [b] decodes to exactly
    [b], for every [b]. *)
Theorem codec_round_trip (b : bytes) :
  outcome_of
    (ioxio_tag_str_to_cose_bytes ("IT1:" ++ bytes_decode (Base45.b45encode b)))
  = Returns b.
Proof. now rewrite decode_wire_text. Qed.

(** Both failures of the decoder carry the same machine-readable code; they
    differ in their message. *)
Lemma decoder_failures_share_code :
  exists code m1 m2,
    err_missing_version = TagsError m1 code /\
    err_failed_base45 = TagsError m2 code /\ m1 <> m2.
Proof.
  eexists _, _, _. split; [reflexivity|]. split; [reflexivity|]. discriminate.
Qed.

(** C3, as the code has it. Version gate: a text that does not start with
    ["IT1:"] fails before any Base45 decoding is attempted (the trace is
    empty). Its failure is no kind of its own: it is a [TagsError] with the
    code [signature_verification_failed], which is also the code of the
    failure raised on invalid Base45 content for the texts that pass the
    gate; the two failures differ in their message only. *)
Theorem version_gate (code : string) :
  startswith code "IT1:" = false ->
  ioxio_tag_str_to_cose_bytes code = ([], Raises err_missing_version)
  /\ failure_code err_missing_version = Some "signature_verification_failed"
  /\ (forall other : string,
        startswith other "IT1:" = true ->
        Base45.b45decode_str (str_drop 4 other) = None ->
        ioxio_tag_str_to_cose_bytes other
        = ([EvB45Decode (str_drop 4 other)], Raises err_failed_base45)
        /\ failure_code err_failed_base45 = failure_code err_missing_version
        /\ err_failed_base45 <> err_missing_version).
Proof.
  intros Hgate. split; [|split].
  - unfold ioxio_tag_str_to_cose_bytes. now rewrite Hgate.
  - reflexivity.
  - intros other Hstart Hbad. split; [|split].
    + unfold ioxio_tag_str_to_cose_bytes. rewrite Hstart, bind_ret_l.
      unfold Base45.b45decode. now rewrite Hbad.
    + reflexivity.
    + discriminate.
Qed.

Lemma version_gate_witness :
  ioxio_tag_str_to_cose_bytes "IT2:QED8WEX0" = ([], Raises err_missing_version)
  /\ ioxio_tag_str_to_cose_bytes "IT1:GGW"
     = ([EvB45Decode "GGW"], Raises err_failed_base45)
  /\ failure_code err_failed_base45 = failure_code err_missing_version.
Proof.
  destruct (version_gate "IT2:QED8WEX0" eq_refl) as (H1 & _ & H3).
  destruct (H3 "IT1:GGW" eq_refl eq_refl) as (H4 & H5 & _).
  split; [exact H1|]. split; [exact H4 | exact H5].
Defined.

(** C3, as stated, fails: the failure of a text without the version marker
    and the failure of a text with invalid Base45 content are the same kind
    of failure, a [TagsError] with the code [signature_verification_failed];
    the code does not tell them apart. *)
Lemma missing_version_is_no_kind_of_its_own :
  exists e1 e2,
    outcome_of (ioxio_tag_str_to_cose_bytes "IT2:QED8WEX0") = Raises e1 /\
    outcome_of (ioxio_tag_str_to_cose_bytes "IT1:GGW") = Raises e2 /\
    failure_code e1 = Some "signature_verification_failed" /\
    failure_code e2 = Some "signature_verification_failed".
Proof.
  exists err_missing_version, err_failed_base45.
  repeat split; vm_compute; reflexivity.
Qed.

(** ** The COSE calls *)


Lemma dict_get_set (V : Type) (k k' : string) (v : V) (d : list (string * V)) :
  dict_get k (dict_set k' v d) = if (k' =? k)%string then Some v else dict_get k d.
Proof.
  unfold dict_set. induction d as [|[k0 v0] d IH]; cbn [app dict_get].
  - reflexivity.
  - rewrite IH. destruct (k' =? k)%string; reflexivity.
Qed.

Section ProgramFacts.

Variable w : World.

Lemma COSE_encode_from_pem (pl : bytes) (pem kid : string) :
  let key := COSEKey_from_pem w pem kid in
  let msg := sig_structure protected_rs256 pl in
  COSE_encode w pl key
  = ([EvSign (PrivatePEM pem) msg],
     Returns (Cbor.dumps (sign1 protected_rs256 (kid_header (str_encode kid)) pl
                            (rsa_sign w (PrivatePEM pem) msg)))).
Proof.
  cbv zeta. unfold COSE_encode, key_sign, COSEKey_from_pem.
  cbn [key_material_of key_alg key_kid].
  unfold sign1, kid_header, protected_rs256.
  destruct (str_encode kid); reflexivity.
Qed.


Lemma COSEMessage_loads_sign1 (data p pl sig : bytes) (u : list (cbor * cbor)) :
  Cbor.loads data = Some (sign1 p u pl sig) ->
  COSEMessage_loads data
  = match p with
    | [] => ret {| msg_protected := []; msg_unprotected := u;
                   msg_payload := CBytes pl; msg_signature := sig |}
    | _ => match Cbor.loads p with
           | Some (CMap pm) =>
               ret {| msg_protected := pm; msg_unprotected := u;
                      msg_payload := CBytes pl; msg_signature := sig |}
           | _ => raise (ValueError "Invalid COSE message.")
           end
    end.
Proof. intros H. unfold COSEMessage_loads. rewrite H. reflexivity. Qed.


Lemma cose_parse_insecure_well_formed
  (data p pl sig k : bytes) (u pm entries : list (cbor * cbor)) (i pr d : string) :
  Cbor.loads data = Some (sign1 p u pl sig) ->
  p <> [] ->
  Cbor.loads p = Some (CMap pm) ->
  Cbor.get_int 1 pm = Some (CInt (-257)) ->
  Cbor.get_int 4 pm = None ->
  Cbor.get_int 4 u = Some (CBytes k) ->
  jwk_params_ok w (dict_set "alg" (JStr "RS256")
                     (dict_set "kid" (JStr (bytes_decode k)) (DUMMY_JWK w))) = true ->
  Cbor.loads pl = Some (CMap entries) ->
  forallb (fun kv => Cbor.is_text (fst kv)) entries = true ->
  Cbor.get_text "iss" entries = Some (CText i) ->
  Cbor.get_text "product" entries = Some (CText pr) ->
  Cbor.get_text "id" entries = Some (CText d) ->
  cose_parse_insecure w data
  = ([], Returns {| payload := {| iss := i; product := pr; id := d |};
                    alg := "RS256"; kid := bytes_decode k |}).
Proof.
  intros Hdata Hp Hpm Halg Hnokid Hkid Hok Hpl Hkeys Hi Hpr Hd.
  unfold cose_parse_insecure.
  rewrite (COSEMessage_loads_sign1 _ _ _ _ _ Hdata).
  destruct p as [|b0 p']; [congruence|]. rewrite Hpm, bind_ret_l.
  cbn [msg_protected msg_unprotected].
  unfold header_getitem. rewrite Halg, bind_ret_l.
  cbn [ALGS_getitem ALGS ALGS_lookup Z.eqb Pos.eqb]. rewrite bind_ret_l.
  rewrite Hkid, bind_ret_l.
  cbn [json_of_kid text_of_kid].
  unfold COSEKey_from_jwk. rewrite !dict_get_set.
  cbn [String.eqb Ascii.eqb Bool.eqb]. rewrite Hok, bind_ret_l.
  cbn [key_kid key_alg key_material_of].
  unfold cwt_decode. rewrite Hdata. unfold sign1. cbn [COSE_decode].
  rewrite Hpm, Hnokid, Hkid, str_encode_decode.
  cbn [key_kid key_verify].
  destruct (list_eq_dec Byte.byte_eq_dec k k) as [_|Hne]; [|congruence].
  rewrite !bind_ret_l, Hpl, !bind_ret_l.
  unfold CodePayload_new. rewrite Hkeys, Hi, Hpr, Hd, bind_ret_l.
  reflexivity.
Qed.

(** *** Key selection *)

Lemma next_matching_jwk_skip (j : json) (rest : list json) (kid alg : string) :
  jwk_has_hints j = true -> jwk_matches kid alg j = false ->
  next_matching_jwk (j :: rest) kid alg = next_matching_jwk rest kid alg.
Proof.
  intros Hh Hm. destruct j as [| | | | |fields]; try discriminate.
  cbn [jwk_has_hints jwk_matches] in Hh, Hm.
  cbn [next_matching_jwk json_getitem].
  destruct (dict_get "kid" fields) as [k|]; [|discriminate].
  destruct (dict_get "alg" fields) as [a|]; [|discriminate].
  rewrite bind_ret_l.
  destruct (json_eq_str k kid); [|reflexivity].
  rewrite bind_ret_l. cbn [andb] in Hm. now rewrite Hm.
Qed.

Lemma next_matching_jwk_hit (j : json) (rest : list json) (kid alg : string) :
  jwk_matches kid alg j = true ->
  next_matching_jwk (j :: rest) kid alg = ret j.
Proof.
  intros Hm. destruct j as [| | | | |fields]; try discriminate.
  cbn [jwk_matches] in Hm.
  cbn [next_matching_jwk json_getitem].
  destruct (dict_get "kid" fields) as [k|]; [|discriminate].
  destruct (dict_get "alg" fields) as [a|]; [|discriminate].
  apply andb_true_iff in Hm. destruct Hm as [Hk Ha].
  now rewrite bind_ret_l, Hk, bind_ret_l, Ha.
Qed.

Lemma next_matching_jwk_first (before after_ : list json) (j : json)
  (kid alg : string) :
  Forall (fun x => jwk_has_hints x = true) before ->
  Forall (fun x => jwk_matches kid alg x = false) before ->
  jwk_matches kid alg j = true ->
  next_matching_jwk (before ++ j :: after_) kid alg = ret j.
Proof.
  intros Hh Hm Hj. induction before as [|x before IH]; cbn [app].
  - now apply next_matching_jwk_hit.
  - inversion Hh; subst. inversion Hm; subst.
    rewrite next_matching_jwk_skip by assumption. now apply IH.
Qed.

Lemma next_matching_jwk_none (keys : list json) (kid alg : string) :
  Forall (fun x => jwk_has_hints x = true) keys ->
  Forall (fun x => jwk_matches kid alg x = false) keys ->
  next_matching_jwk keys kid alg = raise StopIteration.
Proof.
  intros Hh Hm. induction keys as [|x keys IH]; [reflexivity|].
  inversion Hh; subst. inversion Hm; subst.
  rewrite next_matching_jwk_skip by assumption. now apply IH.
Qed.

(** *** Up to key selection *)

Lemma fetch_json_file_eq (uri : string) :
  fetch_json_file w uri = ([EvFetch uri], http_get_json w uri).
Proof. reflexivity. Qed.

(** When the text decodes, the extractor reads [basics], and the issuer
    publishes [keys], [verify_code] is the selection and the check, after
    the decoding and the two fetches. *)
Lemma verify_code_reaches_selection (code : string) (cose_bytes : bytes)
  (basics : CodeBasics) (keys : list json) (t1 t2 : list event) :
  ioxio_tag_str_to_cose_bytes code = (t1, Returns cose_bytes) ->
  cose_parse_insecure w cose_bytes = (t2, Returns basics) ->
  publishes w (iss (payload basics)) keys ->
  exists uri,
    verify_code w code
    = after (t1 ++ t2 ++ [EvFetch (get_product_passport_uri (iss (payload basics)));
                          EvFetch uri])
        (select_and_verify w cose_bytes basics keys).
Proof.
  intros Hdec Hparse (doc & pp & jf & Hdoc & Hpp & Hjwks & Hkeys).
  exists (jwks_uri pp).
  unfold verify_code, select_and_verify.
  rewrite Hdec, bind_returns, Hparse, bind_returns, after_after.
  rewrite fetch_json_file_eq, Hdoc, bind_returns, Hpp, after_ret.
  rewrite try_except_returns, bind_returns, after_after.
  rewrite fetch_json_file_eq, Hjwks, try_except_returns, bind_returns, after_after.
  cbn [json_getitem]. rewrite Hkeys, bind_ret_l. cbn [json_iter]. rewrite bind_ret_l.
  now rewrite <- !app_assoc.
Qed.

(** *** Minted tokens *)

Lemma cose_code_payload_minted (pem iss product id : string) :
  cose_code_payload w iss product id (COSEKey_from_pem w pem (conf_RSA_KID (conf w)))
  = ([EvSign (PrivatePEM pem) (minted_message iss product id)],
     Returns (minted_token w pem iss product id)).
Proof.
  unfold cose_code_payload.
  pose proof (COSE_encode_from_pem (Cbor.dumps (raw_data iss product id)) pem
                (conf_RSA_KID (conf w))) as H.
  cbv zeta in H. unfold raw_data in H. rewrite H.
  reflexivity.
Qed.

Lemma str_encode_nonempty (s : string) : s <> "" -> str_encode s <> [].
Proof. destruct s; [congruence | discriminate]. Qed.

Lemma kid_header_named (k : bytes) : k <> [] -> kid_header k = [(CInt 4, CBytes k)].
Proof. destruct k; [congruence | reflexivity]. Qed.

Lemma fits_small (n : N) : (n < 256)%N -> Cbor.fits n.
Proof. unfold Cbor.fits. intros H. eapply N.lt_trans; [exact H | reflexivity]. Qed.

Lemma loads_protected_rs256 :
  Cbor.loads protected_rs256 = Some (CMap [(CInt 1, CInt (-257))]).
Proof. vm_compute. reflexivity. Qed.

Lemma loads_minted_payload (iss product id : string) :
  short (str_encode iss) -> short (str_encode product) -> short (str_encode id) ->
  Cbor.loads (minted_payload iss product id) = Some (raw_data iss product id).
Proof.
  intros Hi Hp Hd. apply CborFacts.loads_dumps.
  unfold raw_data. cbn [Cbor.wf]. unfold short in *.
  repeat split; trivial; try (apply fits_small; vm_compute; reflexivity); lia.
Qed.

Lemma loads_minted_envelope (pem iss product id : string) :
  mintable w pem iss product id ->
  Cbor.loads (minted_envelope w pem iss product id)
  = Some (sign1 protected_rs256 [(CInt 4, CBytes (str_encode (conf_RSA_KID (conf w))))]
            (minted_payload iss product id)
            (minted_signature w pem iss product id)).
Proof.
  intros (Hkid & Hi & Hp & Hd & Hk & Hpl & Hsig).
  unfold minted_envelope.
  rewrite (kid_header_named _ (str_encode_nonempty _ Hkid)).
  apply CborFacts.loads_dumps.
  unfold sign1. cbn [Cbor.wf]. unfold short in *.
  repeat split; trivial; try (apply fits_small; vm_compute; reflexivity); lia.
Qed.

Lemma cose_parse_insecure_minted (pem iss product id : string) :
  mintable w pem iss product id ->
  dummy_key_loads w (conf_RSA_KID (conf w)) ->
  cose_parse_insecure w (minted_envelope w pem iss product id)
  = ([], Returns {| payload := {| iss := iss; product := product; id := id |};
                    alg := "RS256"; kid := conf_RSA_KID (conf w) |}).
Proof.
  intros Hm Hdummy.
  pose proof (loads_minted_envelope _ _ _ _ Hm) as Hloads.
  destruct Hm as (Hkid & Hi & Hp & Hd & Hk & Hpl & Hsig).
  pose proof (cose_parse_insecure_well_formed _ _ _ _
                (str_encode (conf_RSA_KID (conf w))) _
                [(CInt 1, CInt (-257))]
                [(CText "iss", CText iss); (CText "product", CText product);
                 (CText "id", CText id)] iss product id Hloads) as H.
  rewrite bytes_decode_encode in H. apply H; clear H.
  - discriminate.
  - exact loads_protected_rs256.
  - reflexivity.
  - reflexivity.
  - reflexivity.
  - exact Hdummy.
  - now apply loads_minted_payload.
  - reflexivity.
  - reflexivity.
  - reflexivity.
  - reflexivity.
Qed.

Lemma protected_map_rs256 :
  match protected_rs256 with
  | [] => Some []
  | _ :: _ => match Cbor.loads protected_rs256 with
              | Some (CMap m) => Some m
              | _ => None
              end
  end = Some [(CInt 1, CInt (-257))].
Proof. vm_compute. reflexivity. Qed.

Lemma COSEKey_from_jwk_matching (jwk : json) (kid : string) :
  jwk_matches kid "RS256" jwk = true -> jwk_usable w jwk = true ->
  COSEKey_from_jwk w jwk
  = ret {| key_kid := str_encode kid; key_alg := (-257)%Z;
           key_material_of := PublicJWK jwk;
           key_verify := rsa_key_verify w (PublicJWK jwk) |}.
Proof.
  intros Hm Hu. destruct jwk as [| | | | |fields]; try discriminate.
  cbn [jwk_matches jwk_usable] in Hm, Hu. unfold COSEKey_from_jwk.
  destruct (dict_get "kid" fields) as [k|]; [|discriminate].
  destruct (dict_get "alg" fields) as [a|]; [|discriminate].
  apply andb_true_iff in Hm. destruct Hm as [Hk Ha].
  destruct k as [| | |k| |]; try discriminate.
  destruct a as [| | |a| |]; try discriminate.
  cbn [json_eq_str] in Hk, Ha.
  apply String.eqb_eq in Hk. apply String.eqb_eq in Ha. subst k a.
  now rewrite Hu.
Qed.

(** The signature check of a minted token under a key of its name. *)
Lemma cose_verify_minted (pem iss product id : string) (key : COSEKey)
  (m : key_material) :
  mintable w pem iss product id ->
  key_kid key = str_encode (conf_RSA_KID (conf w)) ->
  key_verify key = rsa_key_verify w m ->
  cose_verify w (minted_envelope w pem iss product id) key
  = ([EvVerify m (minted_message iss product id)
        (minted_signature w pem iss product id)],
     if rsa_verify w m (minted_message iss product id)
          (minted_signature w pem iss product id)
     then Returns tt else Raises (CWTError "Failed to verify.")).
Proof.
  intros Hm Hkid Hverify.
  pose proof (loads_minted_envelope _ _ _ _ Hm) as Hloads.
  destruct Hm as (Hname & Hi & Hp & Hd & Hk & Hpl & Hsig).
  unfold cose_verify, cwt_decode. rewrite Hloads. unfold sign1.
  cbn [COSE_decode]. rewrite protected_map_rs256.
  cbn [Cbor.get_int Z.eqb Pos.eqb]. rewrite Hkid, Hverify.
  destruct (list_eq_dec Byte.byte_eq_dec (str_encode (conf_RSA_KID (conf w)))
              (str_encode (conf_RSA_KID (conf w)))) as [_|Hne]; [|congruence].
  unfold rsa_key_verify, sig_structure, emit.
  fold (minted_message iss product id).
  destruct (rsa_verify w m (minted_message iss product id)
              (minted_signature w pem iss product id)).
  - rewrite bind_returns, after_ret, bind_returns, after_ret, bind_returns.
    rewrite (loads_minted_payload iss product id Hi Hp Hd).
    reflexivity.
  - reflexivity.
Qed.

(** [verify_code] on a minted token whose issuer publishes a key-set in
    which the first key carrying both hints is [jwk]: the outcome is the
    outcome of the signature check under [jwk]. *)
Lemma verify_code_minted (pem iss product id : string)
  (before after_ : list json) (jwk : json) :
  mintable w pem iss product id ->
  dummy_key_loads w (conf_RSA_KID (conf w)) ->
  publishes w iss (before ++ jwk :: after_) ->
  Forall (fun x => jwk_has_hints x = true) before ->
  Forall (fun x => jwk_matches (conf_RSA_KID (conf w)) "RS256" x = false) before ->
  jwk_matches (conf_RSA_KID (conf w)) "RS256" jwk = true ->
  jwk_usable w jwk = true ->
  exists uri,
    verify_code w (bytes_decode (minted_token w pem iss product id))
    = ([EvB45Decode (bytes_decode (Base45.b45encode (minted_envelope w pem iss product id)));
        EvFetch (get_product_passport_uri iss);
        EvFetch uri;
        EvVerify (PublicJWK jwk) (minted_message iss product id)
          (minted_signature w pem iss product id)],
       if rsa_verify w (PublicJWK jwk) (minted_message iss product id)
            (minted_signature w pem iss product id)
       then Returns None else Raises err_verification_failed).
Proof.
  intros Hm Hdummy Hpub Hhints Hnomatch Hmatch Husable.
  destruct (verify_code_reaches_selection
              (bytes_decode (minted_token w pem iss product id))
              (minted_envelope w pem iss product id)
              {| payload := {| iss := iss; product := product; id := id |};
                 alg := "RS256"; kid := conf_RSA_KID (conf w) |}
              (before ++ jwk :: after_) _ _
              (eq_trans (f_equal ioxio_tag_str_to_cose_bytes (wire_text _))
                        (decode_wire_text _))
              (cose_parse_insecure_minted _ _ _ _ Hm Hdummy) Hpub)
    as [uri Hv].
  exists uri. rewrite Hv. clear Hv.
  unfold select_and_verify. cbn [kid alg].
  rewrite (next_matching_jwk_first _ _ _ _ _ Hhints Hnomatch Hmatch), bind_ret_l.
  rewrite (COSEKey_from_jwk_matching _ _ Hmatch Husable), bind_ret_l.
  erewrite cose_verify_minted; [|exact Hm|reflexivity|reflexivity].
  destruct (rsa_verify w (PublicJWK jwk) (minted_message iss product id)
              (minted_signature w pem iss product id)); reflexivity.
Qed.

(** *** [make_cose_code] *)

Lemma make_cose_code_from_pem (iss product id pem security : string)
  (line : string) :
  (logger_info line ;;;
   pl <- cose_code_payload w iss product id
           (COSEKey_from_pem w pem (conf_RSA_KID (conf w))) ;;
   img <- make_image w pl "secure" ;;
   ret (make_image_filename w iss product id security, img))
  = ([EvLog line;
      EvSign (PrivatePEM pem) (minted_message iss product id);
      EvMakeImage (minted_token w pem iss product id) "secure"],
     image_result w (make_image_filename w iss product id security)
       (minted_token w pem iss product id)).
Proof.
  rewrite cose_code_payload_minted. unfold logger_info, make_image, emit, lift.
  rewrite !bind_returns.
  unfold image_result.
  destruct (qr_image w (minted_token w pem iss product id)); reflexivity.
Qed.


Lemma make_cose_code_invalid (iss product id : string) :
  make_cose_code w iss product id false
  = ([EvLog (log_line iss product id "an invalid");
      EvSign (PrivatePEM (INVALID_KEY_DATA w)) (minted_message iss product id);
      EvMakeImage (minted_token w (INVALID_KEY_DATA w) iss product id) "secure"],
     image_result w (make_image_filename w iss product id "invalid")
       (minted_token w (INVALID_KEY_DATA w) iss product id)).
Proof.
  unfold make_cose_code. rewrite bind_ret_l. unfold INVALID_PRIVATE_KEY.
  apply (make_cose_code_from_pem iss product id _ "invalid").
Qed.

End ProgramFacts.

(** ** The demonstration world *)



Lemma demo_mintable (passport jwks : outcome json) (pem : string) :
  (String.length pem < 100)%nat ->
  mintable (Demo.world_with passport jwks) pem "acme.example" "widget" "12345".
Proof.
  intros Hpem. unfold mintable.
  split; [discriminate|].
  do 5 (split; [vm_compute; reflexivity|]).
  unfold short, minted_signature, Cbor.fits.
  cbn [rsa_sign Demo.world_with]. unfold Demo.sign.
  rewrite length_app.
  assert (List.length (Demo.secret_of (PrivatePEM pem)) = String.length pem) as ->.
  { cbn [Demo.secret_of]. unfold str_encode, list_byte_of_string.
    rewrite length_map. clear Hpem. induction pem; cbn; congruence. }
  unfold Demo.checksum. cbn [List.length].
  apply N.lt_trans with (m := 256%N); [lia | reflexivity].
Qed.

Lemma demo_publishes (keys : list json) :
  publishes (Demo.world_with (Returns Demo.acme_passport)
               (Returns (JObj [("keys", JArr keys)])))
    "acme.example" keys.
Proof.
  exists Demo.acme_passport.
  eexists. exists [("keys", JArr keys)].
  repeat split; reflexivity.
Qed.

(** ** Signing *)

(** C8. Issuer/key mismatch at signing: on the valid path a payload whose
    issuer differs from the issuer the signing key is configured for is
    refused with [CannotSignInvalidIssuer]; nothing has been logged, signed
    or rendered by then (the trace is empty), and no token is produced. *)
Theorem issuer_key_mismatch (w : World) (iss product id : string) :
  iss <> conf_RSA_ISS (conf w) ->
  make_cose_code w iss product id true = ([], Raises CannotSignInvalidIssuer).
Proof.
  intros Hiss. unfold make_cose_code.
  replace (iss =? conf_RSA_ISS (conf w))%string with false
    by (symmetry; now apply String.eqb_neq).
  reflexivity.
Qed.

Lemma issuer_key_mismatch_witness :
  make_cose_code Demo.world "a.example" "widget" "12345" true
  = ([], Raises CannotSignInvalidIssuer).
Proof.
  apply (issuer_key_mismatch Demo.world "a.example" "widget" "12345").
  discriminate.
Defined.

(** ** Sign, then verify *)



Lemma demo_token_valid :
  Demo.token_valid
  = bytes_decode (minted_token Demo.world "acme-secret" "acme.example" "widget" "12345").
Proof. vm_compute. reflexivity. Qed.

Lemma demo_token_invalid :
  Demo.token_invalid
  = bytes_decode (minted_token Demo.world "other-secret" "acme.example" "widget" "12345").
Proof. vm_compute. reflexivity. Qed.


(** ** The invalid path *)

(** C10. With [valid=False] no issuer check is made: for every issuer the
    call logs, signs and renders, and its outcome is the renderer's. The
    signing key is [INVALID_PRIVATE_KEY], built from [INVALID_KEY_DATA] under
    the configured key identifier, the one [RSA_PRIVATE_KEY] carries. Hence
    the extractor reads the configured key identifier off the token, and
    where the issuer's published key of that name rejects the signature of
    the invalid key, [verify_code] fails with the signature failure. *)
Theorem invalid_path (w : World) (iss product id : string) :
  make_cose_code w iss product id false
  = ([EvLog (log_line iss product id "an invalid");
      EvSign (PrivatePEM (INVALID_KEY_DATA w)) (minted_message iss product id);
      EvMakeImage (minted_token w (INVALID_KEY_DATA w) iss product id) "secure"],
     image_result w (make_image_filename w iss product id "invalid")
       (minted_token w (INVALID_KEY_DATA w) iss product id))
  /\ key_material_of (INVALID_PRIVATE_KEY w) = PrivatePEM (INVALID_KEY_DATA w)
  /\ key_material_of (RSA_PRIVATE_KEY w) = PrivatePEM (conf_RSA_PRIVATE_KEY (conf w))
  /\ key_kid (INVALID_PRIVATE_KEY w) = str_encode (conf_RSA_KID (conf w))
  /\ key_kid (INVALID_PRIVATE_KEY w) = key_kid (RSA_PRIVATE_KEY w)
  /\ (mintable w (INVALID_KEY_DATA w) iss product id ->
      dummy_key_loads w (conf_RSA_KID (conf w)) ->
      outcome_of
        (cose_parse_insecure w (minted_envelope w (INVALID_KEY_DATA w) iss product id))
      = Returns {| payload := {| iss := iss; product := product; id := id |};
                   alg := "RS256"; kid := conf_RSA_KID (conf w) |})
  /\ (forall (before after_ : list json) (jwk : json),
        mintable w (INVALID_KEY_DATA w) iss product id ->
        dummy_key_loads w (conf_RSA_KID (conf w)) ->
        publishes w iss (before ++ jwk :: after_) ->
        Forall (fun x => jwk_has_hints x = true) before ->
        Forall (fun x => jwk_matches (conf_RSA_KID (conf w)) "RS256" x = false) before ->
        jwk_matches (conf_RSA_KID (conf w)) "RS256" jwk = true ->
        jwk_usable w jwk = true ->
        rsa_verify w (PublicJWK jwk) (minted_message iss product id)
          (minted_signature w (INVALID_KEY_DATA w) iss product id) = false ->
        outcome_of
          (verify_code w
             (bytes_decode (minted_token w (INVALID_KEY_DATA w) iss product id)))
        = Raises err_verification_failed).
Proof.
  split; [apply make_cose_code_invalid|].
  do 4 (split; [reflexivity|]).
  split.
  - intros Hm Hdummy.
    now rewrite (cose_parse_insecure_minted w _ iss product id Hm Hdummy).
  - intros before after_ jwk Hm Hdummy Hpub Hhints Hnomatch Hmatch Husable Hbad.
    destruct (verify_code_minted w _ iss product id before after_ jwk
                Hm Hdummy Hpub Hhints Hnomatch Hmatch Husable) as [uri Hv].
    rewrite Hv, Hbad. reflexivity.
Qed.

Lemma invalid_path_witness :
  In (EvMakeImage (str_encode Demo.token_invalid) "secure")
     (trace_of (make_cose_code Demo.world "acme.example" "widget" "12345" false))
  /\ outcome_of
       (cose_parse_insecure Demo.world
          (minted_envelope Demo.world "other-secret" "acme.example" "widget" "12345"))
     = Returns {| payload := {| iss := "acme.example"; product := "widget";
                                 id := "12345" |};
                  alg := "RS256"; kid := "acme-key-1" |}
  /\ outcome_of (verify_code Demo.world Demo.token_invalid)
     = Raises err_verification_failed.
Proof.
  destruct (invalid_path Demo.world "acme.example" "widget" "12345")
    as (Hmake & _ & _ & _ & _ & Hparse & Hverify).
  assert (mintable Demo.world "other-secret" "acme.example" "widget" "12345") as Hm
    by (apply demo_mintable; cbn; lia).
  split; [|split].
  - rewrite Hmake. cbn [trace_of fst]. right. right. left.
    vm_compute. reflexivity.
  - apply Hparse; [exact Hm | reflexivity].
  - rewrite demo_token_invalid.
    apply (Hverify [] [] Demo.acme_jwk).
    + exact Hm.
    + reflexivity.
    + apply (demo_publishes [Demo.acme_jwk]).
    + constructor.
    + constructor.
    + reflexivity.
    + reflexivity.
    + vm_compute. reflexivity.
Defined.

(** ** Untrusted extraction *)

Lemma silent_bind (A B : Type) (m : M A) (f : A -> M B) :
  silent m -> (forall a, silent (f a)) -> silent (bind m f).
Proof.
  unfold silent, trace_of, bind, after. intros Hm Hf.
  destruct (snd m) as [a|e]; cbn [fst]; rewrite Hm; [apply Hf | reflexivity].
Qed.

Lemma silent_try (A : Type) (m : M A) (h : exn -> option (M A)) :
  silent m -> (forall e body, h e = Some body -> silent body) ->
  silent (try_except m h).
Proof.
  unfold silent, trace_of, try_except, after. intros Hm Hh.
  destruct (snd m) as [a|e]; [exact Hm|].
  destruct (h e) as [body|] eqn:E; [|exact Hm].
  cbn [fst]. rewrite Hm. exact (Hh e body E).
Qed.

Ltac case_split :=
  repeat match goal with
         | |- context [match ?x with _ => _ end] => destruct x
         end.

Lemma silent_COSEMessage_loads (data : bytes) :
  silent (COSEMessage_loads data).
Proof. unfold COSEMessage_loads. case_split; reflexivity. Qed.

Lemma silent_header_getitem (d : list (cbor * cbor)) (i : Z) :
  silent (header_getitem d i).
Proof. unfold header_getitem. case_split; reflexivity. Qed.

Lemma silent_ALGS_getitem (x : cbor) : silent (ALGS_getitem x).
Proof. unfold ALGS_getitem. case_split; reflexivity. Qed.

Lemma silent_COSEKey_from_jwk (w : World) (j : json) :
  silent (COSEKey_from_jwk w j).
Proof. unfold COSEKey_from_jwk. case_split; reflexivity. Qed.

Lemma silent_CodePayload_new (claims : cbor) : silent (CodePayload_new claims).
Proof. unfold CodePayload_new. case_split; reflexivity. Qed.

Lemma silent_CodeBasics_new (a : string) (k : cbor) (p : CodePayload) :
  silent (CodeBasics_new a k p).
Proof. unfold CodeBasics_new. case_split; reflexivity. Qed.

Lemma silent_COSE_decode (v : cbor) (key : COSEKey) :
  (forall msg sig, silent (key_verify key msg sig)) ->
  silent (COSE_decode v key).
Proof.
  intros Hkey. unfold COSE_decode.
  case_split; try reflexivity;
    (apply silent_bind; [apply Hkey | intros; reflexivity]).
Qed.

Lemma silent_cwt_decode_unchecked (w : World) (data : bytes) (key : COSEKey) :
  (forall msg sig, silent (key_verify key msg sig)) ->
  silent (cwt_decode w data key true).
Proof.
  intros Hkey. unfold cwt_decode.
  destruct (Cbor.loads data) as [v|]; [|reflexivity].
  apply silent_bind.
  - case_split; try reflexivity; now apply silent_COSE_decode.
  - intros pl. destruct (Cbor.loads pl); [|reflexivity].
    apply silent_bind; intros; reflexivity.
Qed.

(** The untrusted extractor calls no collaborator: in particular it runs
    no signature check. *)
Lemma silent_cose_parse_insecure (w : World) (data : bytes) :
  silent (cose_parse_insecure w data).
Proof.
  unfold cose_parse_insecure.
  apply silent_bind; [apply silent_COSEMessage_loads | intros msg].
  apply silent_bind; [apply silent_header_getitem | intros alg_id].
  apply silent_bind; [apply silent_ALGS_getitem | intros alg0].
  apply silent_bind; [apply silent_header_getitem | intros kid0].
  apply silent_bind; [apply silent_COSEKey_from_jwk | intros dummy_key].
  apply silent_try.
  - apply silent_bind.
    + apply silent_cwt_decode_unchecked. intros; reflexivity.
    + intros claims.
      apply silent_bind; [apply silent_CodePayload_new | intros p].
      apply silent_CodeBasics_new.
  - intros e body He. destruct e; try discriminate.
    injection He as <-. reflexivity.
Qed.




(** ** Unknown algorithm identifiers *)

Lemma decoded_trace (code : string) (b : bytes) :
  outcome_of (ioxio_tag_str_to_cose_bytes code) = Returns b ->
  ioxio_tag_str_to_cose_bytes code = ([EvB45Decode (str_drop 4 code)], Returns b).
Proof.
  unfold ioxio_tag_str_to_cose_bytes.
  destruct (startswith code "IT1:"); [|discriminate].
  rewrite bind_ret_l. unfold Base45.b45decode.
  destruct (Base45.b45decode_str (str_drop 4 code));
    cbv [outcome_of try_except emit bind ret raise after fst snd app];
    [congruence | discriminate].
Qed.

Lemma parsed_value (w : World) (data : bytes) (basics : CodeBasics) :
  outcome_of (cose_parse_insecure w data) = Returns basics ->
  cose_parse_insecure w data = ([], Returns basics).
Proof.
  intros H. pose proof (silent_cose_parse_insecure w data) as Hs.
  unfold silent, trace_of in Hs. unfold outcome_of in H.
  now rewrite (surjective_pairing (cose_parse_insecure w data)), Hs, H.
Qed.

(** C4, on the code. An envelope whose protected header names an algorithm
    identifier other than -257 makes the lookup [ALGS[...]] of the extractor
    miss: the extractor, and [verify_code] on a text of that envelope, raise
    [KeyError], which is no [TagsError]. *)
Theorem unknown_algorithm_raises_KeyError (w : World)
  (code : string) (data p pl sig : bytes) (u pm : list (cbor * cbor)) (z : Z) :
  outcome_of (ioxio_tag_str_to_cose_bytes code) = Returns data ->
  Cbor.loads data = Some (sign1 p u pl sig) ->
  p <> [] ->
  Cbor.loads p = Some (CMap pm) ->
  Cbor.get_int 1 pm = Some (CInt z) ->
  z <> (-257)%Z ->
  cose_parse_insecure w data = ([], Raises KeyError)
  /\ outcome_of (verify_code w code) = Raises KeyError
  /\ (forall error code', KeyError <> TagsError error code').
Proof.
  intros Hcode Hdata Hp Hpm Halg Hz.
  assert (cose_parse_insecure w data = ([], Raises KeyError)) as Hparse.
  { unfold cose_parse_insecure.
    rewrite (COSEMessage_loads_sign1 _ _ _ _ _ Hdata).
    destruct p as [|b0 p']; [congruence|]. rewrite Hpm, bind_ret_l.
    cbn [msg_protected]. unfold header_getitem. rewrite Halg, bind_ret_l.
    cbn [ALGS_getitem ALGS ALGS_lookup].
    replace (-257 =? z)%Z with false by (symmetry; apply Z.eqb_neq; congruence).
    reflexivity. }
  split; [exact Hparse|]. split; [|discriminate].
  unfold verify_code.
  rewrite (decoded_trace _ _ Hcode), bind_returns, Hparse. reflexivity.
Qed.

Lemma unknown_algorithm_raises_KeyError_witness :
  outcome_of (verify_code Demo.world Demo.token_es256) = Raises KeyError.
Proof.
  refine (proj1 (proj2 (unknown_algorithm_raises_KeyError Demo.world Demo.token_es256
            (Cbor.dumps (sign1 (Cbor.dumps (CMap [(CInt 1, CInt (-7))]))
                           [(CInt 4, CBytes (str_encode "acme-key-1"))]
                           (minted_payload "acme.example" "widget" "12345")
                           (str_encode "sig")))
            (Cbor.dumps (CMap [(CInt 1, CInt (-7))]))
            (minted_payload "acme.example" "widget" "12345")
            (str_encode "sig")
            [(CInt 4, CBytes (str_encode "acme-key-1"))]
            [(CInt 1, CInt (-7))] (-7)%Z _ _ _ _ _ _))).
  - vm_compute. reflexivity.
  - vm_compute. reflexivity.
  - discriminate.
  - vm_compute. reflexivity.
  - reflexivity.
  - discriminate.
Defined.

(** ** Trust resolution *)

Lemma reaches_selection (w : World) (code : string) (cose_bytes : bytes)
  (basics : CodeBasics) (keys : list json) :
  outcome_of (ioxio_tag_str_to_cose_bytes code) = Returns cose_bytes ->
  outcome_of (cose_parse_insecure w cose_bytes) = Returns basics ->
  publishes w (iss (payload basics)) keys ->
  exists uri,
    verify_code w code
    = after [EvB45Decode (str_drop 4 code);
             EvFetch (get_product_passport_uri (iss (payload basics)));
             EvFetch uri]
        (select_and_verify w cose_bytes basics keys).
Proof.
  intros Hcode Hparse Hpub.
  destruct (verify_code_reaches_selection w code cose_bytes basics keys _ _
              (decoded_trace _ _ Hcode) (parsed_value _ _ _ Hparse) Hpub)
    as [uri Hv].
  exists uri. exact Hv.
Qed.

(** Key selection on the key-sets of the published format. When the text
    decodes, the extractor reads the hints
    and the issuer publishes a key-set whose keys all carry [kid] and [alg]:
    the key selected is the first one, in the order of the key-set, whose
    [kid] and [alg] both equal the hints, and the token is checked under
    that key and no other; when no key of the key-set has both equal, the
    selection stops without a key and [verify_code] fails with the
    key-not-found failure. *)
Theorem key_selection (w : World) (code : string) (cose_bytes : bytes)
  (basics : CodeBasics) (keys : list json) :
  outcome_of (ioxio_tag_str_to_cose_bytes code) = Returns cose_bytes ->
  outcome_of (cose_parse_insecure w cose_bytes) = Returns basics ->
  publishes w (iss (payload basics)) keys ->
  Forall (fun x => jwk_has_hints x = true) keys ->
  (forall (before after_ : list json) (jwk : json),
      keys = before ++ jwk :: after_ ->
      Forall (fun x => jwk_matches (kid basics) (alg basics) x = false) before ->
      jwk_matches (kid basics) (alg basics) jwk = true ->
      next_matching_jwk keys (kid basics) (alg basics) = ret jwk /\
      exists uri,
        verify_code w code
        = after [EvB45Decode (str_drop 4 code);
                 EvFetch (get_product_passport_uri (iss (payload basics)));
                 EvFetch uri]
            (check_with w cose_bytes jwk))
  /\ (Forall (fun x => jwk_matches (kid basics) (alg basics) x = false) keys ->
      next_matching_jwk keys (kid basics) (alg basics) = raise StopIteration /\
      exists uri,
        verify_code w code
        = ([EvB45Decode (str_drop 4 code);
            EvFetch (get_product_passport_uri (iss (payload basics)));
            EvFetch uri],
           Raises err_key_not_found)).
Proof.
  intros Hcode Hparse Hpub Hhints.
  destruct (reaches_selection w code cose_bytes basics keys Hcode Hparse Hpub)
    as [uri Hv].
  split.
  - intros before after_ jwk Hkeys Hbefore Hjwk.
    assert (next_matching_jwk keys (kid basics) (alg basics) = ret jwk) as Hnext.
    { subst keys. apply next_matching_jwk_first; trivial.
      apply Forall_app in Hhints. tauto. }
    split; [exact Hnext|]. exists uri. rewrite Hv.
    unfold select_and_verify, check_with. now rewrite Hnext, bind_ret_l.
  - intros Hnone.
    assert (next_matching_jwk keys (kid basics) (alg basics) = raise StopIteration)
      as Hnext by now apply next_matching_jwk_none.
    split; [exact Hnext|]. exists uri. rewrite Hv.
    unfold select_and_verify. rewrite Hnext. reflexivity.
Qed.

Lemma key_selection_witness :
  next_matching_jwk [Demo.acme_jwk_other_alg; Demo.acme_jwk] "acme-key-1" "RS256"
  = ret Demo.acme_jwk
  /\ next_matching_jwk [Demo.acme_jwk_other_alg] "acme-key-1" "RS256"
     = raise StopIteration.
Proof.
  assert (outcome_of (ioxio_tag_str_to_cose_bytes Demo.token_valid)
          = Returns (minted_envelope Demo.world "acme-secret" "acme.example"
                       "widget" "12345")) as Hcode
    by (vm_compute; reflexivity).
  split.
  - destruct (key_selection
                (Demo.world_with (Returns Demo.acme_passport)
                   (Returns (JObj [("keys", JArr [Demo.acme_jwk_other_alg; Demo.acme_jwk])])))
                Demo.token_valid _
                {| payload := {| iss := "acme.example"; product := "widget";
                                 id := "12345" |};
                   alg := "RS256"; kid := "acme-key-1" |}
                [Demo.acme_jwk_other_alg; Demo.acme_jwk] Hcode)
      as [Hfirst _].
    + vm_compute. reflexivity.
    + apply demo_publishes.
    + repeat constructor.
    + apply (Hfirst [Demo.acme_jwk_other_alg] [] Demo.acme_jwk);
        [reflexivity | repeat constructor | reflexivity].
  - destruct (key_selection
                (Demo.world_with (Returns Demo.acme_passport)
                   (Returns (JObj [("keys", JArr [Demo.acme_jwk_other_alg])])))
                Demo.token_valid _
                {| payload := {| iss := "acme.example"; product := "widget";
                                 id := "12345" |};
                   alg := "RS256"; kid := "acme-key-1" |}
                [Demo.acme_jwk_other_alg] Hcode)
      as [_ Hnone].
    + vm_compute. reflexivity.
    + apply demo_publishes.
    + repeat constructor.
    + apply Hnone. repeat constructor.
Defined.

(** C6, on the code. The selection reads [jwk["kid"]] of every key it
    passes and [jwk["alg"]] of every key that carries the token's [kid]. A
    key without the member makes the lookup raise [KeyError], and the [try]
    around the selection catches [StopIteration] and [CWTError] only. So on
    a key-set in which such a key comes before any matching key, that key
    does not match, and [verify_code] raises [KeyError] whatever follows the
    key: when no key of the key-set matches, the failure is not the
    key-not-found failure; when a matching key follows, it is not
    selected. *)
Theorem key_without_hint_raises_KeyError (w : World) (code : string)
  (cose_bytes : bytes) (basics : CodeBasics) (before after_ : list json)
  (fields : list (string * json)) :
  outcome_of (ioxio_tag_str_to_cose_bytes code) = Returns cose_bytes ->
  outcome_of (cose_parse_insecure w cose_bytes) = Returns basics ->
  publishes w (iss (payload basics)) (before ++ JObj fields :: after_) ->
  Forall (fun x => jwk_has_hints x = true) before ->
  Forall (fun x => jwk_matches (kid basics) (alg basics) x = false) before ->
  dict_get "kid" fields = None \/
  (jwk_field_is "kid" (kid basics) (JObj fields) = true /\
   dict_get "alg" fields = None) ->
  jwk_matches (kid basics) (alg basics) (JObj fields) = false
  /\ next_matching_jwk (before ++ JObj fields :: after_) (kid basics) (alg basics)
     = raise KeyError
  /\ (exists uri,
        verify_code w code
        = ([EvB45Decode (str_drop 4 code);
            EvFetch (get_product_passport_uri (iss (payload basics)));
            EvFetch uri],
           Raises KeyError))
  /\ failure_code KeyError = None
  /\ KeyError <> err_key_not_found.
Proof.
  intros Hcode Hparse Hpub Hhints Hbefore Hmissing.
  assert (next_matching_jwk (JObj fields :: after_) (kid basics) (alg basics)
          = raise KeyError) as Hhere.
  { cbn [next_matching_jwk json_getitem].
    destruct Hmissing as [Hkid | [Hkid Halg]].
    - now rewrite Hkid.
    - cbn [jwk_field_is] in Hkid.
      destruct (dict_get "kid" fields) as [k|]; [|discriminate].
      now rewrite bind_ret_l, Hkid, Halg. }
  assert (next_matching_jwk (before ++ JObj fields :: after_) (kid basics) (alg basics)
          = raise KeyError) as Hnext.
  { clear Hpub. induction before as [|x before IH]; cbn [app]; [exact Hhere|].
    inversion Hhints; subst. inversion Hbefore; subst.
    rewrite next_matching_jwk_skip by assumption. now apply IH. }
  split; [|split; [exact Hnext|split; [|split; [reflexivity|discriminate]]]].
  - cbn [jwk_matches]. destruct Hmissing as [-> | [_ ->]]; [reflexivity|].
    now destruct (dict_get "kid" fields).
  - destruct (reaches_selection w code cose_bytes basics _ Hcode Hparse Hpub)
      as [uri Hv].
    exists uri. rewrite Hv. unfold select_and_verify. rewrite Hnext. reflexivity.
Qed.

Lemma key_without_hint_raises_KeyError_witness :
  outcome_of
    (verify_code
       (Demo.world_with (Returns Demo.acme_passport)
          (Returns (JObj [("keys", JArr [Demo.acme_jwk_without_kid; Demo.acme_jwk])])))
       Demo.token_valid)
  = Raises KeyError.
Proof.
  destruct (key_without_hint_raises_KeyError
              (Demo.world_with (Returns Demo.acme_passport)
                 (Returns (JObj [("keys", JArr [Demo.acme_jwk_without_kid;
                                                Demo.acme_jwk])])))
              Demo.token_valid
              (minted_envelope Demo.world "acme-secret" "acme.example" "widget" "12345")
              {| payload := {| iss := "acme.example"; product := "widget";
                               id := "12345" |};
                 alg := "RS256"; kid := "acme-key-1" |}
              [] [Demo.acme_jwk]
              [("kty", JStr "RSA"); ("alg", JStr "RS256");
               ("n", JStr "acme-secret"); ("e", JStr "AQAB")])
    as (_ & _ & [uri Hv] & _).
  - vm_compute. reflexivity.
  - vm_compute. reflexivity.
  - apply (demo_publishes [Demo.acme_jwk_without_kid; Demo.acme_jwk]).
  - constructor.
  - constructor.
  - left. reflexivity.
  - now rewrite Hv.
Defined.




(** Transport failures are translated. Once the text decodes and the
    extractor reads the issuer: an [HTTPError] of the fetch of the issuer's
    descriptor is
    turned into the cannot-read-metadata failure, and an [HTTPError] of the
    fetch of the key-set document into the cannot-read-JWKS failure, a
    failure distinct from the former. *)
Theorem transport_failures (w : World) (code : string) (cose_bytes : bytes)
  (basics : CodeBasics) :
  outcome_of (ioxio_tag_str_to_cose_bytes code) = Returns cose_bytes ->
  outcome_of (cose_parse_insecure w cose_bytes) = Returns basics ->
  (http_get_json w (get_product_passport_uri (iss (payload basics))) = Raises HTTPError ->
   verify_code w code
   = ([EvB45Decode (str_drop 4 code);
       EvFetch (get_product_passport_uri (iss (payload basics)))],
      Raises err_cannot_read_passport))
  /\ (forall (doc : json) (pp : ProductPassport),
        http_get_json w (get_product_passport_uri (iss (payload basics))) = Returns doc ->
        ProductPassport_new doc = ret pp ->
        http_get_json w (jwks_uri pp) = Raises HTTPError ->
        verify_code w code
        = ([EvB45Decode (str_drop 4 code);
            EvFetch (get_product_passport_uri (iss (payload basics)));
            EvFetch (jwks_uri pp)],
           Raises err_cannot_read_jwks))
  /\ err_cannot_read_passport <> err_cannot_read_jwks.
Proof.
  intros Hcode Hparse.
  pose proof (decoded_trace _ _ Hcode) as Hdec.
  pose proof (parsed_value _ _ _ Hparse) as Hpar.
  split; [|split].
  - intros Hfetch. unfold verify_code.
    rewrite Hdec, bind_returns, Hpar, bind_returns, after_after.
    rewrite fetch_json_file_eq, Hfetch. reflexivity.
  - intros doc pp Hdoc Hpp Hfetch. unfold verify_code.
    rewrite Hdec, bind_returns, Hpar, bind_returns, after_after.
    rewrite fetch_json_file_eq, Hdoc, bind_returns, Hpp, after_ret.
    rewrite try_except_returns, bind_returns, after_after.
    rewrite fetch_json_file_eq, Hfetch. reflexivity.
  - discriminate.
Qed.

Lemma transport_failures_witness :
  outcome_of
    (verify_code (Demo.world_with (Raises HTTPError) (Raises HTTPError))
       Demo.token_valid)
  = Raises err_cannot_read_passport
  /\ outcome_of
       (verify_code (Demo.world_with (Returns Demo.acme_passport) (Raises HTTPError))
          Demo.token_valid)
     = Raises err_cannot_read_jwks.
Proof.
  split.
  - destruct (transport_failures
                (Demo.world_with (Raises HTTPError) (Raises HTTPError))
                Demo.token_valid
                (minted_envelope Demo.world "acme-secret" "acme.example" "widget" "12345")
                {| payload := {| iss := "acme.example"; product := "widget";
                                 id := "12345" |};
                   alg := "RS256"; kid := "acme-key-1" |})
      as (H1 & _ & _).
    + vm_compute. reflexivity.
    + vm_compute. reflexivity.
    + rewrite H1; reflexivity.
  - destruct (transport_failures
                (Demo.world_with (Returns Demo.acme_passport) (Raises HTTPError))
                Demo.token_valid
                (minted_envelope Demo.world "acme-secret" "acme.example" "widget" "12345")
                {| payload := {| iss := "acme.example"; product := "widget";
                                 id := "12345" |};
                   alg := "RS256"; kid := "acme-key-1" |})
      as (_ & H2 & _).
    + vm_compute. reflexivity.
    + vm_compute. reflexivity.
    + rewrite (H2 Demo.acme_passport
                 {| jwks_uri := "https://acme.example/jwks.json";
                    logo_url := "https://acme.example/logo.png";
                    product_dataspace := "sandbox.example" |});
        reflexivity.
Defined.

(** Two runs: a descriptor that is fetched and lacks [jwks_uri]
    does not parse into a [ProductPassport], and the [ValidationError] leaves
    [verify_code] as it is; so does the [KeyError] of a key-set document that
    lacks [keys]. Neither is a [TagsError]. *)
Lemma parse_failures_escape :
  outcome_of
    (verify_code
       (Demo.world_with (Returns Demo.broken_passport)
          (Returns (JObj [("keys", JArr [Demo.acme_jwk])])))
       Demo.token_valid)
  = Raises ValidationError
  /\ outcome_of
       (verify_code
          (Demo.world_with (Returns Demo.acme_passport) (Returns (JObj [])))
          Demo.token_valid)
     = Raises KeyError
  /\ (forall error code, ValidationError <> TagsError error code)
  /\ (forall error code, KeyError <> TagsError error code).
Proof.
  split; [vm_compute; reflexivity|].
  split; [vm_compute; reflexivity|].
  split; discriminate.
Qed.

Lemma ProductPassport_new_raises (doc : json) (e : exn) :
  outcome_of (ProductPassport_new doc) = Raises e ->
  e = ValidationError \/ e = TypeError.
Proof.
  unfold ProductPassport_new. case_split; cbn; intros [= <-]; auto.
Qed.

(** C5, on the code. Around the two fetches of [verify_code] only
    [HTTPError] is caught. A descriptor that is fetched and does not
    validate as a [ProductPassport] makes [verify_code] raise the
    [ValidationError] (or the [TypeError]) of the constructor; a key-set
    document that is fetched and has no [keys] member, or is no object,
    makes it raise the [KeyError] (or the [TypeError]) of the lookup. None
    of them is a [TagsError]: a parse failure is not surfaced as a typed
    failure. *)
Theorem parse_failures_are_not_translated (w : World) (code : string)
  (cose_bytes : bytes) (basics : CodeBasics) :
  outcome_of (ioxio_tag_str_to_cose_bytes code) = Returns cose_bytes ->
  outcome_of (cose_parse_insecure w cose_bytes) = Returns basics ->
  (forall (doc : json) (e : exn),
      http_get_json w (get_product_passport_uri (iss (payload basics))) = Returns doc ->
      outcome_of (ProductPassport_new doc) = Raises e ->
      verify_code w code
      = ([EvB45Decode (str_drop 4 code);
          EvFetch (get_product_passport_uri (iss (payload basics)))],
         Raises e)
      /\ (e = ValidationError \/ e = TypeError))
  /\ (forall (doc jwks : json) (pp : ProductPassport) (e : exn),
        http_get_json w (get_product_passport_uri (iss (payload basics))) = Returns doc ->
        ProductPassport_new doc = ret pp ->
        http_get_json w (jwks_uri pp) = Returns jwks ->
        outcome_of (json_getitem jwks "keys") = Raises e ->
        verify_code w code
        = ([EvB45Decode (str_drop 4 code);
            EvFetch (get_product_passport_uri (iss (payload basics)));
            EvFetch (jwks_uri pp)],
           Raises e)
        /\ (e = KeyError \/ e = TypeError))
  /\ failure_code ValidationError = None
  /\ failure_code TypeError = None
  /\ failure_code KeyError = None.
Proof.
  intros Hcode Hparse.
  pose proof (decoded_trace _ _ Hcode) as Hdec.
  pose proof (parsed_value _ _ _ Hparse) as Hpar.
  split; [|split; [|repeat split]].
  - intros doc e Hdoc Hbad.
    pose proof (ProductPassport_new_raises doc e Hbad) as He.
    split; [|exact He].
    assert (ProductPassport_new doc = raise e) as Hnew.
    { revert Hbad. unfold ProductPassport_new. case_split; cbn; congruence. }
    unfold verify_code.
    rewrite Hdec, bind_returns, Hpar, bind_returns, after_after.
    rewrite fetch_json_file_eq, Hdoc, bind_returns, Hnew.
    destruct He as [-> | ->]; reflexivity.
  - intros doc jwks pp e Hdoc Hpp Hjwks Hbad.
    assert (json_getitem jwks "keys" = raise e /\ (e = KeyError \/ e = TypeError))
      as [Hget He].
    { revert Hbad. unfold json_getitem. case_split; cbn; try discriminate;
        intros [= <-]; auto. }
    split; [|exact He].
    unfold verify_code.
    rewrite Hdec, bind_returns, Hpar, bind_returns, after_after.
    rewrite fetch_json_file_eq, Hdoc, bind_returns, Hpp, after_ret.
    rewrite try_except_returns, bind_returns, after_after.
    rewrite fetch_json_file_eq, Hjwks, try_except_returns, bind_returns, after_after.
    rewrite Hget. destruct He as [-> | ->]; reflexivity.
Qed.

Lemma parse_failures_are_not_translated_witness :
  outcome_of
    (verify_code
       (Demo.world_with (Returns Demo.broken_passport)
          (Returns (JObj [("keys", JArr [Demo.acme_jwk])])))
       Demo.token_valid)
  = Raises ValidationError
  /\ outcome_of
       (verify_code
          (Demo.world_with (Returns Demo.acme_passport) (Returns (JObj [])))
          Demo.token_valid)
     = Raises KeyError.
Proof.
  split.
  - destruct (parse_failures_are_not_translated
                (Demo.world_with (Returns Demo.broken_passport)
                   (Returns (JObj [("keys", JArr [Demo.acme_jwk])])))
                Demo.token_valid
                (minted_envelope Demo.world "acme-secret" "acme.example" "widget" "12345")
                {| payload := {| iss := "acme.example"; product := "widget";
                                 id := "12345" |};
                   alg := "RS256"; kid := "acme-key-1" |})
      as (H1 & _).
    + vm_compute. reflexivity.
    + vm_compute. reflexivity.
    + destruct (H1 Demo.broken_passport ValidationError) as [Hv _];
        [reflexivity | reflexivity | now rewrite Hv].
  - destruct (parse_failures_are_not_translated
                (Demo.world_with (Returns Demo.acme_passport) (Returns (JObj [])))
                Demo.token_valid
                (minted_envelope Demo.world "acme-secret" "acme.example" "widget" "12345")
                {| payload := {| iss := "acme.example"; product := "widget";
                                 id := "12345" |};
                   alg := "RS256"; kid := "acme-key-1" |})
      as (_ & H2 & _).
    + vm_compute. reflexivity.
    + vm_compute. reflexivity.
    + destruct (H2 Demo.acme_passport (JObj [])
                  {| jwks_uri := "https://acme.example/jwks.json";
                     logo_url := "https://acme.example/logo.png";
                     product_dataspace := "sandbox.example" |}
                  KeyError) as [Hv _];
        [reflexivity | reflexivity | reflexivity | reflexivity | now rewrite Hv].
Defined.

(** * Further properties of the code *)

(** ** What an accepted token rests on *)

Lemma bind_returns_inv (A B : Type) (m : M A) (f : A -> M B) (b : B) :
  outcome_of (bind m f) = Returns b ->
  exists a, outcome_of m = Returns a /\ outcome_of (f a) = Returns b.
Proof.
  unfold outcome_of, bind, after. destruct (snd m) as [a|e]; cbn [snd].
  - intros H. now exists a.
  - discriminate.
Qed.

Lemma try_returns_inv (A : Type) (m : M A) (h : exn -> option (M A)) (a : A) :
  outcome_of (try_except m h) = Returns a ->
  outcome_of m = Returns a \/
  exists e body, outcome_of m = Raises e /\ h e = Some body /\
                 outcome_of body = Returns a.
Proof.
  unfold outcome_of, try_except, after. destruct (snd m) as [a'|e] eqn:E.
  - rewrite E. now left.
  - destruct (h e) as [body|] eqn:Eh; cbn [snd].
    + intros H. right. now exists e, body.
    + rewrite E. discriminate.
Qed.

Ltac case_split_eq :=
  repeat match goal with
         | |- context [match ?x with _ => _ end] =>
             let E := fresh "E" in destruct x eqn:E
         end.



Lemma COSEKey_from_jwk_inv (w : World) (jwk : json) (key : COSEKey) :
  outcome_of (COSEKey_from_jwk w jwk) = Returns key ->
  jwk_usable w jwk = true /\
  key_verify key = rsa_key_verify w (PublicJWK jwk).
Proof.
  unfold COSEKey_from_jwk, outcome_of.
  destruct jwk as [| | | | |fields]; try discriminate.
  case_split_eq; cbn [snd ret raise]; intros H; try discriminate.
  injection H as <-. cbn [jwk_usable key_verify]. now split.
Qed.




(** ** What [verify_code] asks of the network *)

Lemma emits_only_silent (A : Type) (P : event -> Prop) (m : M A) :
  silent m -> emits_only P m.
Proof. unfold silent, emits_only. intros -> ev []. Qed.

Lemma in_trace_bind (A B : Type) (m : M A) (f : A -> M B) (ev : event) :
  In ev (trace_of (bind m f)) ->
  In ev (trace_of m) \/
  exists a, outcome_of m = Returns a /\ In ev (trace_of (f a)).
Proof.
  unfold trace_of, outcome_of, bind, after.
  destruct (snd m) as [a|e]; cbn [fst].
  - intros H. apply in_app_or in H as [H|H]; [now left|]. right. now exists a.
  - now left.
Qed.

Lemma in_trace_try (A : Type) (m : M A) (h : exn -> option (M A)) (ev : event) :
  In ev (trace_of (try_except m h)) ->
  In ev (trace_of m) \/
  exists e body, outcome_of m = Raises e /\ h e = Some body /\
                 In ev (trace_of body).
Proof.
  unfold trace_of, outcome_of, try_except, after.
  destruct (snd m) as [a|e]; [now left|].
  destruct (h e) as [body|] eqn:Eh; [|now left]. cbn [fst].
  intros H. apply in_app_or in H as [H|H]; [now left|].
  right. now exists e, body.
Qed.

Lemma emits_only_bind (A B : Type) (P : event -> Prop) (m : M A) (f : A -> M B) :
  emits_only P m -> (forall a, emits_only P (f a)) -> emits_only P (bind m f).
Proof.
  intros Hm Hf ev H. apply in_trace_bind in H as [H | (a & _ & H)].
  - now apply Hm.
  - now apply (Hf a).
Qed.

Lemma emits_only_try (A : Type) (P : event -> Prop) (m : M A)
  (h : exn -> option (M A)) :
  emits_only P m -> (forall e body, h e = Some body -> emits_only P body) ->
  emits_only P (try_except m h).
Proof.
  intros Hm Hh ev H. apply in_trace_try in H as [H | (e & body & _ & He & H)].
  - now apply Hm.
  - now apply (Hh e body He).
Qed.

Lemma emits_only_rsa_key_verify (w : World) (m : key_material) (msg sig : bytes) :
  emits_only is_check (rsa_key_verify w m msg sig).
Proof.
  unfold rsa_key_verify, emits_only, emit.
  destruct (rsa_verify w m msg sig); cbn;
    intros ev [<-|[]]; now exists m, msg, sig.
Qed.

Lemma emits_only_cwt_decode (w : World) (data : bytes) (key : COSEKey)
  (no_verify : bool) :
  (forall msg sig, emits_only is_check (key_verify key msg sig)) ->
  emits_only is_check (cwt_decode w data key no_verify).
Proof.
  intros Hkey. unfold cwt_decode.
  destruct (Cbor.loads data) as [v|]; [|now apply emits_only_silent].
  apply emits_only_bind.
  - assert (forall v', emits_only is_check (COSE_decode v' key)) as Hdec.
    { intros v'. unfold COSE_decode.
      case_split; try (now apply emits_only_silent);
        (apply emits_only_bind; [apply Hkey | intros; now apply emits_only_silent]). }
    case_split; try (now apply emits_only_silent); apply Hdec.
  - intros pl. destruct (Cbor.loads pl) as [claims|]; [|now apply emits_only_silent].
    apply emits_only_bind; [|intros; now apply emits_only_silent].
    apply emits_only_silent. destruct no_verify; [reflexivity|].
    unfold cwt_verify_claims. destruct claims; try reflexivity.
    apply silent_bind; [|intros _]; case_split; reflexivity.
Qed.

(** [verify_code] asks the network nothing unless the text decodes and the
    extractor reads a payload off it; what it then fetches is the well-known
    descriptor of the issuer named by that unverified payload and, once
    that descriptor is read, the key-set document it names; nothing else. *)
Theorem verify_code_fetches (w : World) (code uri : string) :
  In (EvFetch uri) (trace_of (verify_code w code)) ->
  exists cose_bytes basics,
    outcome_of (ioxio_tag_str_to_cose_bytes code) = Returns cose_bytes /\
    outcome_of (cose_parse_insecure w cose_bytes) = Returns basics /\
    (uri = get_product_passport_uri (iss (payload basics)) \/
     exists doc pp,
       http_get_json w (get_product_passport_uri (iss (payload basics))) = Returns doc /\
       ProductPassport_new doc = ret pp /\
       uri = jwks_uri pp).
Proof.
  intros H. unfold verify_code in H.
  apply in_trace_bind in H as [H | (cose_bytes & Hdec & H)].
  { exfalso. revert H. unfold ioxio_tag_str_to_cose_bytes, Base45.b45decode.
    destruct (startswith code "IT1:"); [|intros []].
    rewrite bind_ret_l.
    destruct (Base45.b45decode_str (str_drop 4 code)); cbn;
      intros [H|[]]; discriminate. }
  apply in_trace_bind in H as [H | (basics & Hparse & H)].
  { exfalso. now rewrite (silent_cose_parse_insecure w cose_bytes) in H. }
  exists cose_bytes, basics. split; [exact Hdec|]. split; [exact Hparse|].
  apply in_trace_bind in H as [H | (pp & Hpp & H)].
  { left. apply in_trace_try in H as [H | (e & body & _ & He & H)].
    - apply in_trace_bind in H as [H | (doc & _ & H)].
      + cbn in H. destruct H as [H|[]]. now injection H as <-.
      + exfalso. revert H. unfold ProductPassport_new.
        case_split; intros [].
    - exfalso. destruct e; try discriminate. injection He as <-. destruct H. }
  right.
  apply try_returns_inv in Hpp as [Hpp | (e & body & _ & He & Hbody)].
  2:{ destruct e; try discriminate. injection He as <-. discriminate. }
  apply bind_returns_inv in Hpp as (doc & Hdoc & Hnew).
  exists doc, pp. split; [exact Hdoc|]. split.
  { revert Hnew. unfold ProductPassport_new.
    case_split; try discriminate. cbn. now intros [= <-]. }
  apply in_trace_bind in H as [H | (jwks & _ & H)].
  { apply in_trace_try in H as [H | (e & body & _ & He & H)].
    - cbn in H. destruct H as [H|[]]. now injection H as <-.
    - exfalso. destruct e; try discriminate. injection He as <-. destruct H. }
  exfalso.
  apply in_trace_bind in H as [H | (x & _ & [])].
  assert (emits_only is_check
            (try_except
               (keys_doc <- json_getitem jwks "keys" ;;
                keys <- json_iter keys_doc ;;
                jwk <- next_matching_jwk keys (kid basics) (alg basics) ;;
                cose_key <- COSEKey_from_jwk w jwk ;;
                cose_verify w cose_bytes cose_key)
               (fun e => match e with
                         | StopIteration => Some (raise err_key_not_found)
                         | CWTError _ => Some (raise err_verification_failed)
                         | _ => None
                         end))) as Honly.
  { apply emits_only_try.
    - apply emits_only_bind;
        [apply emits_only_silent; unfold json_getitem; case_split; reflexivity|].
      intros keys_doc. apply emits_only_bind;
        [apply emits_only_silent; unfold json_iter; case_split; reflexivity|].
      intros keys. apply emits_only_bind.
      { apply emits_only_silent. generalize (kid basics) (alg basics). intros k a.
        induction keys as [|j keys IH]; [reflexivity|].
        cbn [next_matching_jwk].
        apply silent_bind; [unfold json_getitem; case_split; reflexivity|].
        intros kv. destruct (json_eq_str kv k); [|exact IH].
        apply silent_bind; [unfold json_getitem; case_split; reflexivity|].
        intros av. destruct (json_eq_str av a); [reflexivity|exact IH]. }
      intros jwk.
      destruct (COSEKey_from_jwk w jwk) as [t [key|e]] eqn:Ekey.
      + pose proof (silent_COSEKey_from_jwk w jwk) as Hs.
        rewrite Ekey in Hs. unfold silent in Hs. cbn in Hs. subst t.
        change (@pair (list event) (outcome COSEKey) [] (Returns key)) with (ret key).
        rewrite bind_ret_l.
        assert (outcome_of (COSEKey_from_jwk w jwk) = Returns key) as Hk
          by now rewrite Ekey.
        apply COSEKey_from_jwk_inv in Hk as [_ Hv].
        unfold cose_verify. apply emits_only_bind;
          [|intros; now apply emits_only_silent].
        apply emits_only_cwt_decode. intros msg sig. rewrite Hv.
        apply emits_only_rsa_key_verify.
      + pose proof (silent_COSEKey_from_jwk w jwk) as Hs.
        rewrite Ekey in Hs. unfold silent in Hs. cbn in Hs. subst t.
        now apply emits_only_silent.
    - intros e body He. apply emits_only_silent.
      destruct e; try discriminate; injection He as <-; reflexivity. }
  destruct (Honly _ H) as (m & msg & sig & Hev). discriminate.
Qed.

Lemma verify_code_fetches_witness :
  exists cose_bytes basics,
    outcome_of (ioxio_tag_str_to_cose_bytes Demo.token_valid) = Returns cose_bytes /\
    outcome_of (cose_parse_insecure Demo.world cose_bytes) = Returns basics /\
    ("https://acme.example/jwks.json"
     = get_product_passport_uri (iss (payload basics)) \/
     exists doc pp,
       http_get_json Demo.world (get_product_passport_uri (iss (payload basics)))
       = Returns doc /\
       ProductPassport_new doc = ret pp /\
       "https://acme.example/jwks.json" = jwks_uri pp).
Proof.
  apply (verify_code_fetches Demo.world Demo.token_valid
           "https://acme.example/jwks.json").
  vm_compute. right. right. left. reflexivity.
Defined.

(** ** The text of a tag *)

(** Whatever [ioxio_tag_str_to_cose_bytes] raises is a [TagsError] with the
    code [signature_verification_failed]. *)
Theorem decoder_failures_are_typed (code : string) (e : exn) :
  outcome_of (ioxio_tag_str_to_cose_bytes code) = Raises e ->
  exists msg, e = TagsError msg "signature_verification_failed".
Proof.
  unfold ioxio_tag_str_to_cose_bytes, Base45.b45decode.
  destruct (startswith code "IT1:").
  - rewrite bind_ret_l.
    destruct (Base45.b45decode_str (str_drop 4 code)); cbn; [discriminate|].
    intros [= <-]. eexists. reflexivity.
  - cbn. intros [= <-]. eexists. reflexivity.
Qed.

Lemma decoder_failures_are_typed_witness :
  exists msg, err_failed_base45 = TagsError msg "signature_verification_failed".
Proof.
  apply (decoder_failures_are_typed "IT1:GGW" err_failed_base45).
  vm_compute. reflexivity.
Defined.

Module Base45Inverse.
Import Base45.

Lemma index_of_spec (c : ascii) (l : list ascii) (k i : N) :
  index_of c l k = Some i ->
  (k <= i)%N /\ (N.to_nat (i - k) < List.length l)%nat /\
  nth (N.to_nat (i - k)) l "0"%char = c.
Proof.
  revert k. induction l as [|c' rest IH]; intros k; cbn [index_of]; [discriminate|].
  destruct (Ascii.eqb c' c) eqn:E.
  - intros [= <-]. apply Ascii.eqb_eq in E. rewrite N.sub_diag. cbn. repeat split; [lia|lia|exact E].
  - intros H. apply IH in H as (Hle & Hlt & Hnth).
    replace (N.to_nat (i - k)) with (S (N.to_nat (i - N.succ k))) by lia.
    cbn [List.length nth]. repeat split; [lia|lia|exact Hnth].
Qed.

Lemma dict_inv (c : ascii) (i : N) :
  BASE45_DICT c = Some i -> (i < 45)%N /\ charset i = c.
Proof.
  unfold BASE45_DICT, charset. intros H.
  apply index_of_spec in H as (_ & Hlt & Hnth).
  rewrite N.sub_0_r in *. split; [|exact Hnth].
  change (List.length (list_ascii_of_string BASE45_CHARSET)) with 45%nat in Hlt. lia.
Qed.

Lemma lookup_all_inv (l : list ascii) (vs : list N) :
  lookup_all l = Some vs ->
  l = map charset vs /\ Forall (fun v => (v < 45)%N) vs.
Proof.
  revert vs. induction l as [|c rest IH]; intros vs; cbn [lookup_all].
  - intros [= <-]. split; [reflexivity|constructor].
  - destruct (BASE45_DICT c) as [i|] eqn:Ec; [|discriminate].
    destruct (lookup_all rest) as [r|]; [|discriminate].
    intros [= <-]. destruct (IH r eq_refl) as [-> Hr].
    apply dict_inv in Ec as [Hi <-]. split; [reflexivity|now constructor].
Qed.

Lemma triples_ind (A : Type) (P : list A -> Prop) :
  P [] -> (forall a, P [a]) -> (forall a b, P [a; b]) ->
  (forall a b c l, P l -> P (a :: b :: c :: l)) ->
  forall l, P l.
Proof.
  intros H0 H1 H2 H3. fix IH 1.
  intros [|a [|b [|c l]]];
    [exact H0 | exact (H1 a) | exact (H2 a b) | exact (H3 a b c l (IH l))].
Qed.

Lemma decode_values_inv (vs : list N) :
  Forall (fun v => (v < 45)%N) vs ->
  forall b, decode_values vs = Some b -> encode_values b = vs.
Proof.
  induction vs as [|c|c d|c d e rest IH] using triples_ind; intros Hlt b.
  - intros [= <-]. reflexivity.
  - discriminate.
  - cbn [decode_values].
    destruct (255 <? c + d * 45)%N eqn:E; [discriminate|]. intros [= <-].
    apply N.ltb_ge in E. inversion Hlt as [|? ? Hc Hlt1]; subst.
    inversion Hlt1 as [|? ? Hd _]; subst.
    cbn [encode_values]. rewrite CborFacts.to_N_byte_of_N.
    rewrite (N.mod_small (c + d * 45) 256) by lia.
    f_equal; [|f_equal].
    + symmetry. apply (N.mod_unique _ _ d); lia.
    + symmetry. apply (N.div_unique _ _ _ c); lia.
  - cbn [decode_values].
    destruct (65535 <? c + d * 45 + e * 45 * 45)%N eqn:E; [discriminate|].
    destruct (decode_values rest) as [r|] eqn:Er; [|discriminate].
    intros [= <-]. apply N.ltb_ge in E.
    inversion Hlt as [|? ? Hc Hlt1]; subst.
    inversion Hlt1 as [|? ? Hd Hlt2]; subst.
    inversion Hlt2 as [|? ? He Hrest]; subst.
    cbn [encode_values]. rewrite !CborFacts.to_N_byte_of_N.
    set (x := (c + d * 45 + e * 45 * 45)%N) in *.
    assert (x / 256 < 256)%N as Hq by (apply N.Div0.div_lt_upper_bound; lia).
    rewrite (N.mod_small (x / 256) 256) by exact Hq.
    rewrite N.Div0.mod_mod.
    replace (x / 256 * 256 + x mod 256)%N with x
      by (rewrite (N.div_mod' x 256) at 1; lia).
    assert (x mod (45 * 45) = c + d * 45)%N as Hm
      by (symmetry; apply (N.mod_unique _ _ e); unfold x; lia).
    assert (x / (45 * 45) = e)%N as Hd'
      by (symmetry; apply (N.div_unique _ _ _ (c + d * 45)%N); unfold x; lia).
    rewrite Hm, Hd', (IH Hrest r eq_refl).
    f_equal; [|f_equal].
    + symmetry. apply (N.mod_unique _ _ d); lia.
    + symmetry. apply (N.div_unique _ _ _ c); lia.
Qed.

Lemma rstrip_newline_spec (l : list ascii) :
  exists n, l = rstrip_newline l ++ repeat newline n.
Proof.
  induction l as [|c rest [n IH]]; [now exists 0%nat|].
  cbn [rstrip_newline].
  destruct (rstrip_newline rest) as [|r0 r] eqn:Er.
  - cbn [app] in IH. destruct (is_newline c) eqn:Ec.
    + apply Ascii.eqb_eq in Ec. exists (S n). subst c. now rewrite IH.
    + exists n. now rewrite IH.
  - exists n. cbn [app]. rewrite IH at 1. reflexivity.
Qed.

Lemma string_of_list_ascii_app (a b : list ascii) :
  string_of_list_ascii (a ++ b)
  = (string_of_list_ascii a ++ string_of_list_ascii b)%string.
Proof. induction a as [|x a IH]; cbn; [reflexivity | now rewrite IH]. Qed.

Lemma b45decode_str_inv (s : string) (b : bytes) :
  b45decode_str s = Some b ->
  exists n,
    s = (bytes_decode (b45encode b) ++ string_of_list_ascii (repeat newline n))%string.
Proof.
  unfold b45decode_str. intros H.
  destruct (lookup_all (rstrip_newline (list_ascii_of_string s))) as [vs|] eqn:El;
    [|discriminate].
  destruct (List.length vs mod 3 =? 1)%nat; [discriminate|].
  apply lookup_all_inv in El as [Hl Hlt].
  apply (decode_values_inv vs Hlt) in H.
  destruct (rstrip_newline_spec (list_ascii_of_string s)) as [n Hn].
  exists n. unfold b45encode. rewrite bytes_decode_encode.
  rewrite Base45Facts.encode_chars_values, H, <- Hl, <- string_of_list_ascii_app, <- Hn.
  now rewrite string_of_list_ascii_of_string.
Qed.

End Base45Inverse.

Lemma startswith_marker_inv (code : string) :
  startswith code "IT1:" = true -> code = ("IT1:" ++ str_drop 4 code)%string.
Proof.
  unfold startswith.
  destruct code as [|a [|b [|c [|d rest]]]]; cbn [String.prefix];
    repeat match goal with
           | |- context [ascii_dec ?x ?y] => destruct (ascii_dec x y)
           end; try discriminate.
  subst. reflexivity.
Qed.

(** The text of a tag is canonical: a text that decodes to the bytes [b] is
    the version marker followed by the Base45 encoding of [b], and by
    nothing more than newlines. *)
Theorem tag_text_canonical (code : string) (b : bytes) :
  outcome_of (ioxio_tag_str_to_cose_bytes code) = Returns b ->
  exists n,
    code = ("IT1:" ++ bytes_decode (Base45.b45encode b)
              ++ string_of_list_ascii (repeat newline n))%string.
Proof.
  unfold ioxio_tag_str_to_cose_bytes, Base45.b45decode. intros H.
  destruct (startswith code "IT1:") eqn:Es; [|discriminate].
  rewrite bind_ret_l in H.
  destruct (Base45.b45decode_str (str_drop 4 code)) as [b'|] eqn:Ed;
    cbn in H; [|discriminate].
  injection H as <-.
  destruct (Base45Inverse.b45decode_str_inv _ _ Ed) as [n Hn].
  exists n. rewrite <- Hn. now apply startswith_marker_inv.
Qed.

Lemma tag_text_canonical_witness :
  exists n,
    "IT1:QED8WEX0"
    = ("IT1:" ++ bytes_decode (Base45.b45encode (str_encode "ietf!"))
         ++ string_of_list_ascii (repeat newline n))%string.
Proof.
  apply (tag_text_canonical "IT1:QED8WEX0" (str_encode "ietf!")).
  vm_compute. reflexivity.
Defined.

(** ** Simple tags: [make_url_code] *)

Module UrlFacts.
Import Url.

Lemma all_chars_app (p : ascii -> bool) (a b : string) :
  all_chars p (a ++ b) = all_chars p a && all_chars p b.
Proof.
  induction a as [|c a IH]; cbn [String.append all_chars]; [reflexivity|].
  now rewrite IH, andb_assoc.
Qed.

Lemma quote_char_chars (c : ascii) : all_chars url_char (quote_char c) = true.
Proof.
  destruct c as [[] [] [] [] [] [] [] []]; vm_compute; reflexivity.
Qed.

Lemma unquote_quote_char (c : ascii) (rest : string) :
  unquote_plus (quote_char c ++ rest) = String c (unquote_plus rest).
Proof.
  destruct c as [[] [] [] [] [] [] [] []]; reflexivity.
Qed.

Lemma quote_plus_chars (s : string) : all_chars url_char (quote_plus s) = true.
Proof.
  induction s as [|c s IH]; [reflexivity|].
  cbn [quote_plus]. now rewrite all_chars_app, quote_char_chars, IH.
Qed.

Lemma append_assoc (a b c : string) : ((a ++ b) ++ c = a ++ (b ++ c))%string.
Proof. induction a as [|x a IH]; cbn; [reflexivity | now rewrite IH]. Qed.

Lemma unquote_quote_plus (s : string) : unquote_plus (quote_plus s) = s.
Proof.
  induction s as [|c s IH]; [reflexivity|].
  cbn [quote_plus]. now rewrite unquote_quote_char, IH.
Qed.

Lemma quote_plus_injective (a b : string) : quote_plus a = quote_plus b -> a = b.
Proof.
  intros H. rewrite <- (unquote_quote_plus a), <- (unquote_quote_plus b).
  now rewrite H.
Qed.

(** Two texts without [/], each followed by [/] and a rest, are equal only
    when the texts and the rests are. *)
Lemma split_at_slash (a a' r r' : string) :
  all_chars url_char a = true -> all_chars url_char a' = true ->
  (a ++ String "/"%char r = a' ++ String "/"%char r')%string ->
  a = a' /\ r = r'.
Proof.
  revert a'. induction a as [|c a IH]; intros [|c' a'] Ha Ha';
    cbn [String.append all_chars] in *.
  - intros [= <-]. now split.
  - intros [= <- _]. discriminate.
  - intros [= -> _]. discriminate.
  - intros [= <- H]. apply andb_true_iff in Ha as [_ Ha].
    apply andb_true_iff in Ha' as [_ Ha'].
    destruct (IH a' Ha Ha' H) as [-> ->]. now split.
Qed.

Lemma tag_url_injective (iss product id iss' product' id' : string) :
  tag_url iss product id = tag_url iss' product' id' ->
  iss = iss' /\ product = product' /\ id = id'.
Proof.
  unfold tag_url. intros H.
  assert ((quote_plus iss ++ String "/"%char (quote_plus product ++ "/" ++ quote_plus id)
           = quote_plus iss' ++ String "/"%char
               (quote_plus product' ++ "/" ++ quote_plus id'))%string) as H1.
  { cbn [String.append] in H. now injection H. }
  apply split_at_slash in H1 as [Hi H2]; try apply quote_plus_chars.
  change ((quote_plus product ++ String "/"%char (quote_plus id)
           = quote_plus product' ++ String "/"%char (quote_plus id'))%string) in H2.
  apply split_at_slash in H2 as [Hp Hd]; try apply quote_plus_chars.
  repeat split; now apply quote_plus_injective.
Qed.

End UrlFacts.

(** [quote_plus] leaves in a text nothing but letters, digits and the
    characters [_.-~+%]: no [/], no [?], no [#], no space. So the URL of a
    simple tag has the fixed prefix and exactly three path segments, whatever
    the issuer, product and id contain. *)
Theorem simple_tag_url_shape (iss product id : string) :
  exists a b c,
    Url.tag_url iss product id
    = ("https://tags.ioxio.dev/q/" ++ a ++ "/" ++ b ++ "/" ++ c)%string /\
    Url.all_chars Url.url_char a = true /\
    Url.all_chars Url.url_char b = true /\
    Url.all_chars Url.url_char c = true /\
    (forall ch, In ch ["/"; "?"; "#"; " "; "&"; "="; ":"; "@"]%char ->
                Url.url_char ch = false).
Proof.
  exists (Url.quote_plus iss), (Url.quote_plus product), (Url.quote_plus id).
  split; [reflexivity|].
  repeat split; try apply UrlFacts.quote_plus_chars.
  intros ch Hin. cbn in Hin.
  repeat (destruct Hin as [<-|Hin]; [reflexivity|]). destruct Hin.
Qed.

(** What [make_url_code] renders determines the issuer, the product and the
    id: two calls that render the same payload were given the same three
    texts. *)
Theorem simple_tag_determines_fields (w w' : World)
  (iss product id iss' product' id' : string) (pl : bytes) (frame frame' : string) :
  In (EvMakeImage pl frame) (trace_of (make_url_code w iss product id)) ->
  In (EvMakeImage pl frame') (trace_of (make_url_code w' iss' product' id')) ->
  iss = iss' /\ product = product' /\ id = id'.
Proof.
  unfold make_url_code, logger_info, make_image, emit, lift.
  rewrite !bind_returns.
  intros H H'.
  assert (forall (v : World) (line url security : string) (ev : event),
             In ev (trace_of
                      (after [EvLog line]
                         (img <- after [EvMakeImage (str_encode url) "simple"]
                                   ([], qr_image v (str_encode url)) ;;
                          ret (security, img)))) ->
             ev = EvLog line \/ ev = EvMakeImage (str_encode url) "simple") as Hshape.
  { intros v line url security ev. unfold after, bind. cbn [fst snd app].
    destruct (qr_image v (str_encode url)); cbn; intuition congruence. }
  apply Hshape in H as [H|H]; [discriminate|].
  apply Hshape in H' as [H'|H']; [discriminate|].
  assert (pl = str_encode (Url.tag_url iss product id)) as Hpl by congruence.
  assert (pl = str_encode (Url.tag_url iss' product' id')) as Hpl' by congruence.
  apply UrlFacts.tag_url_injective.
  rewrite <- (bytes_decode_encode (Url.tag_url iss product id)).
  rewrite <- (bytes_decode_encode (Url.tag_url iss' product' id')).
  now rewrite <- Hpl, <- Hpl'.
Qed.

Lemma simple_tag_determines_fields_witness :
  "acme.example" = "acme.example" /\ "wid/get" = "wid/get" /\ "1 2" = "1 2".
Proof.
  apply (simple_tag_determines_fields Demo.world Demo.world
           "acme.example" "wid/get" "1 2" "acme.example" "wid/get" "1 2"
           (str_encode "https://tags.ioxio.dev/q/acme.example/wid%2Fget/1+2")
           "simple" "simple");
    vm_compute; right; left; reflexivity.
Defined.

(** ** File names: [slugify] and [make_image_filename] *)

Module SlugFacts.
Import Slug.

Lemma lower_kept_slug (c : ascii) :
  kept (lower c) = true -> separator (lower c) = false ->
  slug_char (lower c) = true.
Proof.
  destruct c as [[] [] [] [] [] [] [] []]; vm_compute; congruence.
Qed.

Lemma collapse_chars (l : list ascii) :
  Forall (fun c => kept c = true /\ exists c0, c = lower c0) l ->
  forall in_run, Forall (fun c => slug_char c = true) (collapse in_run l).
Proof.
  induction 1 as [|c l [Hk [c0 ->]] Hl IH]; intros in_run; cbn [collapse].
  - constructor.
  - destruct (separator (lower c0)) eqn:Es.
    + destruct in_run; [apply IH|]. constructor; [reflexivity | apply IH].
    + constructor; [now apply lower_kept_slug | apply IH].
Qed.

Lemma separator_hyphen (c : ascii) : separator c = false -> hyphen c = false.
Proof. unfold separator, hyphen. now intros [H _]%orb_false_iff. Qed.

Lemma collapse_head (l : list ascii) : head_hyphen (collapse true l) = false.
Proof.
  induction l as [|c l IH]; [reflexivity|]. cbn [collapse].
  destruct (separator c) eqn:Es; [exact IH|]. now apply separator_hyphen.
Qed.

Lemma no_double_cons (a : ascii) (l : list ascii) :
  no_double_hyphen (a :: l)
  = negb (hyphen a && head_hyphen l) && no_double_hyphen l.
Proof. destruct l; cbn; [now rewrite andb_false_r | reflexivity]. Qed.

Lemma collapse_no_double (l : list ascii) :
  forall in_run, no_double_hyphen (collapse in_run l) = true.
Proof.
  induction l as [|c l IH]; intros in_run; [reflexivity|]. cbn [collapse].
  destruct (separator c) eqn:Es.
  - destruct in_run; [apply IH|].
    now rewrite no_double_cons, collapse_head, andb_false_r, IH.
  - now rewrite no_double_cons, (separator_hyphen c Es), IH.
Qed.

Lemma lstrip_suffix (l : list ascii) : exists pre, l = pre ++ lstrip l.
Proof.
  induction l as [|c l [pre IH]]; [now exists []|]. cbn [lstrip].
  destruct (stripped c); [|now exists []].
  exists (c :: pre). cbn. now rewrite <- IH.
Qed.

Lemma rstrip_prefix (l : list ascii) : exists post, l = rstrip l ++ post.
Proof.
  induction l as [|c l [post IH]]; [now exists []|]. cbn [rstrip].
  destruct (rstrip l) as [|r0 r] eqn:Er.
  - destruct (stripped c); [now exists (c :: l)|]. exists post. cbn. now rewrite IH at 1.
  - exists post. cbn [app]. now rewrite IH at 1.
Qed.

Lemma no_double_app_r (a b : list ascii) :
  no_double_hyphen (a ++ b) = true -> no_double_hyphen b = true.
Proof.
  induction a as [|x a IH]; [trivial|]. cbn [app].
  rewrite no_double_cons. intros [_ H]%andb_true_iff. now apply IH.
Qed.

Lemma head_hyphen_app (a b : list ascii) :
  a <> [] -> head_hyphen (a ++ b) = head_hyphen a.
Proof. destruct a; [congruence | reflexivity]. Qed.

Lemma no_double_app_l (a b : list ascii) :
  no_double_hyphen (a ++ b) = true -> no_double_hyphen a = true.
Proof.
  induction a as [|x a IH]; [trivial|]. cbn [app].
  rewrite !no_double_cons. intros [H1 H2]%andb_true_iff.
  rewrite (IH H2), andb_true_r.
  destruct a as [|y a]; [cbn; now rewrite andb_false_r|exact H1].
Qed.

Lemma first_ok_lstrip (l : list ascii) : first_ok (lstrip l) = true.
Proof.
  induction l as [|c l IH]; [reflexivity|]. cbn [lstrip].
  destruct (stripped c) eqn:Es; [exact IH|]. cbn. now rewrite Es.
Qed.

Lemma first_ok_rstrip (l : list ascii) :
  first_ok l = true -> first_ok (rstrip l) = true.
Proof.
  destruct l as [|c l]; [trivial|]. cbn [rstrip first_ok]. intros Hc.
  destruct (rstrip l); [|exact Hc].
  destruct (stripped c) eqn:Es; [reflexivity|]. cbn. now rewrite Es.
Qed.

Lemma last_ok_rstrip (l : list ascii) : last_ok (rstrip l) = true.
Proof.
  induction l as [|c l IH]; [reflexivity|]. cbn [rstrip].
  destruct (rstrip l) as [|r0 r] eqn:Er.
  - destruct (stripped c) eqn:Es; [reflexivity|]. cbn. now rewrite Es.
  - exact IH.
Qed.

Lemma slug_chars (fold : string -> string) (value : string) :
  Forall (fun c => slug_char c = true)
    (list_ascii_of_string (slugify fold value)).
Proof.
  unfold slugify. rewrite list_ascii_of_string_of_list_ascii.
  set (l := filter kept (map lower (list_ascii_of_string (fold value)))).
  assert (Forall (fun c => slug_char c = true) (collapse false l)) as H.
  { apply collapse_chars. apply Forall_forall. intros c Hc.
    apply filter_In in Hc as [Hin Hk]. split; [exact Hk|].
    apply in_map_iff in Hin as (c0 & <- & _). now exists c0. }
  destruct (lstrip_suffix (collapse false l)) as [pre Hpre].
  destruct (rstrip_prefix (lstrip (collapse false l))) as [post Hpost].
  rewrite Hpre in H. apply Forall_app in H as [_ H].
  rewrite Hpost in H. now apply Forall_app in H as [H _].
Qed.

Lemma slug_ends (fold : string -> string) (value : string) :
  first_ok (list_ascii_of_string (slugify fold value)) = true
  /\ last_ok (list_ascii_of_string (slugify fold value)) = true
  /\ no_double_hyphen (list_ascii_of_string (slugify fold value)) = true.
Proof.
  unfold slugify. rewrite list_ascii_of_string_of_list_ascii.
  set (l := collapse false
              (filter kept (map lower (list_ascii_of_string (fold value))))).
  split; [|split].
  - apply first_ok_rstrip, first_ok_lstrip.
  - apply last_ok_rstrip.
  - pose proof (collapse_no_double
                  (filter kept (map lower (list_ascii_of_string (fold value))))
                  false) as H.
    fold l in H.
    destruct (lstrip_suffix l) as [pre Hpre].
    destruct (rstrip_prefix (lstrip l)) as [post Hpost].
    rewrite Hpre in H. apply no_double_app_r in H.
    rewrite Hpost in H. now apply no_double_app_l in H.
Qed.

End SlugFacts.

(** A slug is made of lower-case letters, digits, [_], [.] and [-]; it
    neither begins nor ends with [-] or [_]; and it holds no two hyphens
    side by side. *)
Theorem slug_shape (ascii_fold : string -> string) (value : string) :
  let s := list_ascii_of_string (Slug.slugify ascii_fold value) in
  Forall (fun c => Slug.slug_char c = true) s
  /\ Slug.first_ok s = true
  /\ Slug.last_ok s = true
  /\ Slug.no_double_hyphen s = true.
Proof.
  cbv zeta. split; [apply SlugFacts.slug_chars | apply SlugFacts.slug_ends].
Qed.

Module SlugFixed.
Import Slug.

Lemma slug_char_stable (c : ascii) :
  slug_char c = true ->
  lower c = c /\ kept c = true /\ separator c = hyphen c.
Proof.
  destruct c as [[] [] [] [] [] [] [] []]; vm_compute; intros H;
    try discriminate; repeat split.
Qed.

Lemma map_lower_slug (l : list ascii) :
  Forall (fun c => slug_char c = true) l -> map lower l = l.
Proof.
  induction 1 as [|c l Hc Hl IH]; [reflexivity|]. cbn [map].
  destruct (slug_char_stable c Hc) as (-> & _). now rewrite IH.
Qed.

Lemma filter_kept_slug (l : list ascii) :
  Forall (fun c => slug_char c = true) l -> filter kept l = l.
Proof.
  induction 1 as [|c l Hc Hl IH]; [reflexivity|]. cbn [filter].
  destruct (slug_char_stable c Hc) as (_ & -> & _). now rewrite IH.
Qed.

Lemma collapse_slug (l : list ascii) :
  Forall (fun c => slug_char c = true) l ->
  no_double_hyphen l = true ->
  collapse false l = l /\ (head_hyphen l = false -> collapse true l = l).
Proof.
  induction 1 as [|c l Hc Hl IH]; [now split|].
  rewrite SlugFacts.no_double_cons. intros [Hhead Hrest]%andb_true_iff.
  destruct (IH Hrest) as [IHf IHt].
  destruct (slug_char_stable c Hc) as (_ & _ & Hsep).
  cbn [collapse head_hyphen]. rewrite Hsep.
  destruct (hyphen c) eqn:Eh.
  - cbn [andb negb] in Hhead. apply negb_true_iff in Hhead.
    split; [|discriminate].
    rewrite (IHt Hhead). unfold hyphen in Eh. apply Ascii.eqb_eq in Eh. now subst c.
  - split; [|intros _]; now rewrite IHf.
Qed.

Lemma lstrip_first_ok (l : list ascii) : first_ok l = true -> lstrip l = l.
Proof.
  destruct l as [|c l]; [trivial|]. cbn [first_ok lstrip].
  now intros ->%negb_true_iff.
Qed.

Lemma rstrip_last_ok (l : list ascii) : last_ok l = true -> rstrip l = l.
Proof.
  induction l as [|c l IH]; [trivial|]. intros H. cbn [rstrip].
  destruct l as [|d l].
  - cbn in *. now apply negb_true_iff in H as ->.
  - rewrite (IH H). reflexivity.
Qed.

End SlugFixed.

(** A slug is a fixed point of [slugify], for a folding step that leaves
    ASCII text as it is. *)
Theorem slugify_idempotent (ascii_fold : string -> string) (value : string) :
  (forall s, Forall (fun c => Slug.slug_char c = true) (list_ascii_of_string s) ->
             ascii_fold s = s) ->
  Slug.slugify ascii_fold (Slug.slugify ascii_fold value)
  = Slug.slugify ascii_fold value.
Proof.
  intros Hfold.
  pose proof (SlugFacts.slug_chars ascii_fold value) as Hchars.
  destruct (SlugFacts.slug_ends ascii_fold value) as (Hfirst & Hlast & Hdouble).
  set (s := Slug.slugify ascii_fold value) in *.
  unfold Slug.slugify at 1. rewrite (Hfold s Hchars).
  rewrite (SlugFixed.map_lower_slug _ Hchars).
  rewrite (SlugFixed.filter_kept_slug _ Hchars).
  destruct (SlugFixed.collapse_slug _ Hchars Hdouble) as [-> _].
  rewrite (SlugFixed.lstrip_first_ok _ Hfirst).
  rewrite (SlugFixed.rstrip_last_ok _ Hlast).
  apply string_of_list_ascii_of_string.
Qed.

Lemma slugify_idempotent_witness :
  Slug.slugify (fun s => s) (Slug.slugify (fun s => s) "  Acme -- Example_Ltd.  ")
  = Slug.slugify (fun s => s) "  Acme -- Example_Ltd.  ".
Proof.
  apply (slugify_idempotent (fun s => s) "  Acme -- Example_Ltd.  ").
  intros s _. reflexivity.
Defined.

Lemma list_ascii_of_string_app (a b : string) :
  list_ascii_of_string (a ++ b) = list_ascii_of_string a ++ list_ascii_of_string b.
Proof. induction a as [|c a IH]; cbn; [reflexivity | now rewrite IH]. Qed.

(** In a world whose [slugify] is the one of [tag.py], the name of an image
    file is made of lower-case letters, digits, [_], [.] and [-] only, so it
    holds no path separator, no space and no colon, and it ends with
    [.png]. *)
Theorem image_filename_safe (w : World) (ascii_fold : string -> string)
  (iss product id security : string) :
  (forall s, slugify w s = Slug.slugify ascii_fold s) ->
  Forall (fun c => Slug.slug_char c = true)
    (list_ascii_of_string (make_image_filename w iss product id security))
  /\ (exists stem, make_image_filename w iss product id security
                   = (stem ++ ".png")%string)
  /\ (forall ch, In ch ["/"; "\"; " "; ":"]%char -> Slug.slug_char ch = false).
Proof.
  intros Hslug. split; [|split].
  - unfold make_image_filename. rewrite !Hslug.
    rewrite !list_ascii_of_string_app.
    repeat (apply Forall_app; split);
      try apply SlugFacts.slug_chars;
      repeat constructor.
  - unfold make_image_filename.
    exists (slugify w iss ++ "_" ++ slugify w product ++ "_" ++ slugify w id ++ "_"
              ++ slugify w security)%string.
    now rewrite !UrlFacts.append_assoc.
  - intros ch Hin. cbn in Hin.
    repeat (destruct Hin as [<-|Hin]; [reflexivity|]). destruct Hin.
Qed.

Lemma image_filename_safe_witness :
  Forall (fun c => Slug.slug_char c = true)
    (list_ascii_of_string
       (make_image_filename slug_world "Acme.Example" "../Wid get" "12/345" "signed"))
  /\ (exists stem,
        make_image_filename slug_world "Acme.Example" "../Wid get" "12/345" "signed"
        = (stem ++ ".png")%string)
  /\ (forall ch, In ch ["/"; "\"; " "; ":"]%char -> Slug.slug_char ch = false).
Proof.
  apply (image_filename_safe slug_world (fun s => s)).
  intros s. reflexivity.
Defined.

(** ** Display metadata: [fetch_metadata] *)

Section FetchMetadataFacts.

Variable w : World.
Variable get_dataspace_configuration : string -> outcome json.
Variable py_str : json -> string.
Variable passport_fails_first : bool.

Let fetch := fetch_metadata w get_dataspace_configuration py_str passport_fails_first.

Lemma gather_fetches_eq (a b : string) :
  gather_fetches w passport_fails_first a b
  = ([EvFetch a; EvFetch b],
     match http_get_json w a, http_get_json w b with
     | Returns x, Returns y => Returns (x, y)
     | Raises e, Returns _ => Raises e
     | Returns _, Raises e => Raises e
     | Raises e1, Raises e2 => Raises (if passport_fails_first then e1 else e2)
     end).
Proof.
  unfold gather_fetches.
  destruct (http_get_json w a), (http_get_json w b); reflexivity.
Qed.

Lemma fetch_metadata_fetched (iss product : string)
  (pp : ProductPassport) (pm : ProductMetadata) :
  metadata_fetched w iss product pp pm ->
  fetch iss product
  = after [EvFetch (get_product_passport_uri iss);
           EvFetch (get_product_metadata_uri iss product)]
      (gateway <-
         try_except
           (config <- lift (get_dataspace_configuration (product_dataspace pp)) ;;
            json_getitem config "product_gateway_url")
           (fun e => match e with
                     | KeyError =>
                         Some (logger_exception
                                 ("product_gateway_url not found in "
                                    ++ product_dataspace pp ++ " configuration") ;;;
                               raise err_gateway_not_found)
                     | _ => None
                     end) ;;
       pgw_openapi <- fetch_json_file w
                        (match gateway with JStr s => s | other => py_str other end
                           ++ "/openapi.json") ;;
       match pgw_openapi with
       | JObj fields =>
           listed <- supported_dataproducts_of
                       (match dict_get "paths" fields with
                        | Some v => v
                        | None => JObj []
                        end)
                       (supported_dataproducts pm) ;;
           match listed with
           | Done l =>
               ret (Done {| response_logo_url := logo_url pp;
                            response_product_dataspace := product_dataspace pp;
                            response_names := names pm;
                            response_image_url := image_url pm;
                            response_supported_dataproducts := l |})
           | AttributeError => ret AttributeError
           end
       | _ => ret AttributeError
       end).
Proof.
  intros (x & y & Hx & Hy & Hpp & Hpm).
  unfold fetch, fetch_metadata. cbv zeta.
  rewrite gather_fetches_eq, Hx, Hy, bind_returns.
  cbn [fst snd]. rewrite Hpp, bind_ret_l, Hpm, bind_ret_l, after_ret.
  rewrite try_except_returns, bind_returns. reflexivity.
Qed.

End FetchMetadataFacts.

(** An [HTTPError] of either of the two first fetches, the other one
    succeeding or failing alike, is logged and turned into the
    failed-to-fetch-metadata failure, after both fetches were started. *)
Theorem metadata_transport_failure (w : World)
  (get_dataspace_configuration : string -> outcome json) (py_str : json -> string)
  (passport_fails_first : bool) (iss product : string) :
  http_get_json w (get_product_passport_uri iss) = Raises HTTPError \/
  http_get_json w (get_product_metadata_uri iss product) = Raises HTTPError ->
  (forall e, http_get_json w (get_product_passport_uri iss) = Raises e -> e = HTTPError) ->
  (forall e, http_get_json w (get_product_metadata_uri iss product) = Raises e ->
             e = HTTPError) ->
  fetch_metadata w get_dataspace_configuration py_str passport_fails_first iss product
  = ([EvFetch (get_product_passport_uri iss);
      EvFetch (get_product_metadata_uri iss product);
      EvLog ("Failed to fetch metadata for " ++ iss)],
     Raises err_failed_to_fetch_metadata).
Proof.
  intros Hfail Ha Hb. unfold fetch_metadata. cbv zeta.
  rewrite gather_fetches_eq.
  destruct (http_get_json w (get_product_passport_uri iss)) as [x|e1] eqn:E1;
    destruct (http_get_json w (get_product_metadata_uri iss product)) as [y|e2] eqn:E2.
  - destruct Hfail; discriminate.
  - rewrite (Hb e2 eq_refl). reflexivity.
  - rewrite (Ha e1 eq_refl). reflexivity.
  - rewrite (Ha e1 eq_refl), (Hb e2 eq_refl).
    destruct passport_fails_first; reflexivity.
Qed.

Lemma metadata_transport_failure_witness :
  outcome_of
    (fetch_metadata
       (metadata_world (Returns Demo.acme_passport) (Raises HTTPError)
          (Returns gateway_openapi))
       gateway_configuration (fun _ => "") true "acme.example" "widget")
  = Raises err_failed_to_fetch_metadata.
Proof.
  rewrite (metadata_transport_failure
             (metadata_world (Returns Demo.acme_passport) (Raises HTTPError)
                (Returns gateway_openapi))
             gateway_configuration (fun _ => "") true "acme.example" "widget").
  - reflexivity.
  - right. reflexivity.
  - intros e. discriminate.
  - intros e H. vm_compute in H. congruence.
Defined.

Lemma ProductMetadata_new_raises (doc : json) (e : exn) :
  outcome_of (ProductMetadata_new doc) = Raises e ->
  e = ValidationError \/ e = TypeError.
Proof.
  unfold ProductMetadata_new. case_split; cbn; intros [= <-]; auto.
Qed.

(** A document that is fetched and does not validate is not turned into the
    failed-to-fetch-metadata failure, whatever the message of that failure
    says: the [ValidationError] or [TypeError] of the model leaves
    [fetch_metadata] as it is, after the two fetches and before any other
    call. *)
Theorem metadata_validation_escapes (w : World)
  (get_dataspace_configuration : string -> outcome json) (py_str : json -> string)
  (passport_fails_first : bool) (iss product : string) (x y : json) (e : exn) :
  http_get_json w (get_product_passport_uri iss) = Returns x ->
  http_get_json w (get_product_metadata_uri iss product) = Returns y ->
  outcome_of (ProductPassport_new x) = Raises e \/
  (exists pp, ProductPassport_new x = ret pp) /\
  outcome_of (ProductMetadata_new y) = Raises e ->
  fetch_metadata w get_dataspace_configuration py_str passport_fails_first iss product
  = ([EvFetch (get_product_passport_uri iss);
      EvFetch (get_product_metadata_uri iss product)],
     Raises e)
  /\ (e = ValidationError \/ e = TypeError).
Proof.
  intros Hx Hy Hbad.
  assert (e = ValidationError \/ e = TypeError) as He.
  { destruct Hbad as [H | [_ H]];
      [now apply ProductPassport_new_raises in H
      |now apply ProductMetadata_new_raises in H]. }
  split; [|exact He].
  unfold fetch_metadata. cbv zeta.
  rewrite gather_fetches_eq, Hx, Hy, bind_returns. cbn [fst snd].
  assert (silent (ProductPassport_new x)) as Hs1
    by (unfold ProductPassport_new; case_split; reflexivity).
  assert (silent (ProductMetadata_new y)) as Hs2
    by (unfold ProductMetadata_new; case_split; reflexivity).
  destruct Hbad as [H | [[pp Hpp] H]].
  - rewrite (surjective_pairing (ProductPassport_new x)).
    unfold silent, trace_of in Hs1. unfold outcome_of in H. rewrite Hs1, H.
    destruct He as [-> | ->]; reflexivity.
  - rewrite Hpp, bind_ret_l.
    rewrite (surjective_pairing (ProductMetadata_new y)).
    unfold silent, trace_of in Hs2. unfold outcome_of in H. rewrite Hs2, H.
    destruct He as [-> | ->]; reflexivity.
Qed.

Lemma metadata_validation_escapes_witness :
  outcome_of
    (fetch_metadata
       (metadata_world (Returns Demo.broken_passport) (Returns widget_metadata)
          (Returns gateway_openapi))
       gateway_configuration (fun _ => "") true "acme.example" "widget")
  = Raises ValidationError.
Proof.
  destruct (metadata_validation_escapes
              (metadata_world (Returns Demo.broken_passport) (Returns widget_metadata)
                 (Returns gateway_openapi))
              gateway_configuration (fun _ => "") true "acme.example" "widget"
              Demo.broken_passport widget_metadata ValidationError)
    as [H _].
  - reflexivity.
  - reflexivity.
  - left. reflexivity.
  - now rewrite H.
Defined.

(** When the configuration of the dataspace has no [product_gateway_url],
    or the call for the configuration raises [KeyError] itself, the miss is
    logged and [fetch_metadata] fails with the gateway-not-found failure; the
    gateway is not asked anything. *)
Theorem metadata_gateway_missing (w : World)
  (get_dataspace_configuration : string -> outcome json) (py_str : json -> string)
  (passport_fails_first : bool) (iss product : string)
  (pp : ProductPassport) (pm : ProductMetadata) :
  metadata_fetched w iss product pp pm ->
  get_dataspace_configuration (product_dataspace pp) = Raises KeyError \/
  (exists fields,
      get_dataspace_configuration (product_dataspace pp) = Returns (JObj fields) /\
      dict_get "product_gateway_url" fields = None) ->
  fetch_metadata w get_dataspace_configuration py_str passport_fails_first iss product
  = ([EvFetch (get_product_passport_uri iss);
      EvFetch (get_product_metadata_uri iss product);
      EvLog ("product_gateway_url not found in " ++ product_dataspace pp
               ++ " configuration")],
     Raises err_gateway_not_found).
Proof.
  intros Hfetched Hmiss.
  rewrite (fetch_metadata_fetched w _ _ _ iss product pp pm Hfetched).
  destruct Hmiss as [H | (fields & H & Hnone)]; unfold lift; rewrite H.
  - reflexivity.
  - rewrite bind_returns. cbn [json_getitem]. rewrite Hnone. reflexivity.
Qed.

Lemma demo_metadata_fetched (openapi : outcome json) :
  metadata_fetched
    (metadata_world (Returns Demo.acme_passport) (Returns widget_metadata) openapi)
    "acme.example" "widget"
    {| jwks_uri := "https://acme.example/jwks.json";
       logo_url := "https://acme.example/logo.png";
       product_dataspace := "sandbox.example" |}
    {| names := [("en", "Widget")];
       image_url := "https://acme.example/widget.png";
       supported_dataproducts :=
         [[("path", JStr "/Battery/Status"); ("name", JStr "Own name")];
          [("path", JStr "/Not/Offered")];
          [("path", JStr "/Weather/Now")]] |}.
Proof.
  exists Demo.acme_passport, widget_metadata. repeat split; reflexivity.
Qed.

Lemma metadata_gateway_missing_witness :
  outcome_of
    (fetch_metadata
       (metadata_world (Returns Demo.acme_passport) (Returns widget_metadata)
          (Returns gateway_openapi))
       (fun _ => Returns (JObj [])) (fun _ => "") true "acme.example" "widget")
  = Raises err_gateway_not_found.
Proof.
  rewrite (metadata_gateway_missing _ _ _ _ _ _ _ _
             (demo_metadata_fetched (Returns gateway_openapi))).
  - reflexivity.
  - right. exists []. split; reflexivity.
Defined.

(** A failure of the fetch of the gateway's OpenAPI document is not
    translated: whatever that fetch raises, an [HTTPError] included, is what
    [fetch_metadata] raises. *)
Theorem metadata_openapi_failure (w : World)
  (get_dataspace_configuration : string -> outcome json) (py_str : json -> string)
  (passport_fails_first : bool) (iss product gateway : string)
  (pp : ProductPassport) (pm : ProductMetadata)
  (fields : list (string * json)) (e : exn) :
  metadata_fetched w iss product pp pm ->
  get_dataspace_configuration (product_dataspace pp) = Returns (JObj fields) ->
  dict_get "product_gateway_url" fields = Some (JStr gateway) ->
  http_get_json w (gateway ++ "/openapi.json") = Raises e ->
  fetch_metadata w get_dataspace_configuration py_str passport_fails_first iss product
  = ([EvFetch (get_product_passport_uri iss);
      EvFetch (get_product_metadata_uri iss product);
      EvFetch (gateway ++ "/openapi.json")],
     Raises e).
Proof.
  intros Hfetched Hconf Hgw Hfail.
  rewrite (fetch_metadata_fetched w _ _ _ iss product pp pm Hfetched).
  unfold lift. rewrite Hconf, bind_returns. cbn [json_getitem]. rewrite Hgw.
  rewrite after_ret, try_except_returns, bind_returns.
  rewrite fetch_json_file_eq, Hfail. reflexivity.
Qed.

Lemma metadata_openapi_failure_witness :
  outcome_of
    (fetch_metadata
       (metadata_world (Returns Demo.acme_passport) (Returns widget_metadata)
          (Raises HTTPError))
       gateway_configuration (fun _ => "") true "acme.example" "widget")
  = Raises HTTPError.
Proof.
  rewrite (metadata_openapi_failure _ gateway_configuration _ _ _ _
             "https://gateway.example" _ _
             [("product_gateway_url", JStr "https://gateway.example")] HTTPError
             (demo_metadata_fetched (Raises HTTPError)));
    reflexivity.
Defined.

Lemma json_getitem_returns_inv (j : json) (k : string) (v : json) :
  outcome_of (json_getitem j k) = Returns v ->
  exists fields, j = JObj fields /\ dict_get k fields = Some v.
Proof.
  destruct j; try discriminate. cbn [json_getitem].
  destruct (dict_get k fields) eqn:E; [|discriminate].
  intros [= <-]. now exists fields.
Qed.

Lemma silent_json_getitem (j : json) (k : string) : trace_of (json_getitem j k) = [].
Proof. unfold json_getitem. now case_split. Qed.

(** One step of the comprehension, read backwards. *)
Lemma comprehension_step (defs : list (string * json)) (sdp : list (string * json))
  (rest res : list (list (string * json))) :
  outcome_of (supported_dataproducts_of (JObj defs) (sdp :: rest)) = Returns (Done res) ->
  (exists path, dict_get "path" sdp = Some path /\ hashable path = true) /\
  ((listed defs sdp = false /\
    outcome_of (supported_dataproducts_of (JObj defs) rest) = Returns (Done res)) \/
   (listed defs sdp = true /\
    exists e l, res = e :: l /\ entry_of defs sdp e /\
                outcome_of (supported_dataproducts_of (JObj defs) rest)
                = Returns (Done l))).
Proof.
  intros H. cbn [supported_dataproducts_of] in H.
  apply bind_returns_inv in H as (path & Hpath & H).
  apply json_getitem_returns_inv in Hpath as (fields & [= <-] & Hpath).
  destruct (hashable path) eqn:Eh; [|discriminate].
  split; [now exists path|].
  unfold listed. rewrite Hpath.
  destruct path as [| | |p| |]; try discriminate; try (now left).
  destruct (dict_get p defs) as [found|] eqn:Ef; [|now left].
  destruct (truthy found) eqn:Et; [|now left].
  apply bind_returns_inv in H as (post & Hpost & H).
  apply bind_returns_inv in H as (s & Hs & H).
  apply bind_returns_inv in H as (post' & Hpost' & H).
  apply bind_returns_inv in H as (d & Hd & H).
  apply bind_returns_inv in H as (others & Ho & H).
  destruct others as [l|]; [|discriminate].
  injection H as <-.
  apply json_getitem_returns_inv in Hpost as (ops & -> & Hpost).
  apply json_getitem_returns_inv in Hpost' as (ops' & [= <-] & Hpost').
  apply json_getitem_returns_inv in Hs as (po & -> & Hs).
  apply json_getitem_returns_inv in Hd as (po' & -> & Hd).
  right. split; [reflexivity|].
  eexists _, l. split; [reflexivity|]. split; [|exact Ho].
  exists p, s, d. unfold operation_member. rewrite Ef, Hpost.
  repeat split; try assumption.
  rewrite Hpost' in Hpost. injection Hpost as <-. exact Hd.
Qed.

(** With an object for the OpenAPI paths the comprehension returns a list
    or raises [KeyError] or [TypeError], and calls nothing. *)
Lemma comprehension_outcome (defs : list (string * json))
  (sdps : list (list (string * json))) :
  trace_of (supported_dataproducts_of (JObj defs) sdps) = [] /\
  ((exists res, outcome_of (supported_dataproducts_of (JObj defs) sdps)
                = Returns (Done res)) \/
   (exists e, outcome_of (supported_dataproducts_of (JObj defs) sdps) = Raises e /\
              (e = KeyError \/ e = TypeError))).
Proof.
  induction sdps as [|sdp rest [IHt IH]].
  - split; [reflexivity|]. left. now exists [].
  - cbn [supported_dataproducts_of json_getitem].
    destruct (dict_get "path" sdp) as [path|];
      [|split; [reflexivity|]; right; exists KeyError; auto].
    rewrite bind_ret_l.
    destruct (hashable path);
      [|split; [reflexivity|]; right; exists TypeError; auto].
    assert (forall found,
               let m := (post <- json_getitem found "post" ;;
                         summary <- json_getitem post "summary" ;;
                         post' <- json_getitem found "post" ;;
                         description <- json_getitem post' "description" ;;
                         others <- supported_dataproducts_of (JObj defs) rest ;;
                         match others with
                         | Done l =>
                             ret (Done ((("name", summary)
                                           :: ("description", description) :: sdp) :: l))
                         | AttributeError => ret AttributeError
                         end) in
               trace_of m = [] /\
               ((exists res, outcome_of m = Returns (Done res)) \/
                (exists e, outcome_of m = Raises e /\ (e = KeyError \/ e = TypeError))))
      as Hfound.
    { intros found m. subst m.
      destruct found as [| | | | |ops];
        try (split; [reflexivity|]; right; exists TypeError; auto).
      cbn [json_getitem].
      destruct (dict_get "post" ops) as [post|];
        [|split; [reflexivity|]; right; exists KeyError; auto].
      rewrite bind_ret_l.
      destruct post as [| | | | |po];
        try (split; [reflexivity|]; right; exists TypeError; auto).
      cbn [json_getitem].
      destruct (dict_get "summary" po) as [s|];
        [|split; [reflexivity|]; right; exists KeyError; auto].
      rewrite !bind_ret_l. cbn [json_getitem].
      destruct (dict_get "description" po) as [d|];
        [|split; [reflexivity|]; right; exists KeyError; auto].
      rewrite bind_ret_l.
      unfold trace_of, outcome_of in *.
      destruct (supported_dataproducts_of (JObj defs) rest) as [t o].
      cbn [fst snd] in *. subst t.
      destruct IH as [[res ->] | (e & -> & He)].
      - split; [reflexivity|]. left. eexists. reflexivity.
      - split; [reflexivity|]. right. exists e. now split. }
    destruct path as [| | |p| |]; try (now split).
    destruct (dict_get p defs) as [found|]; [|now split].
    destruct (truthy found); [|now split].
    apply Hfound.
Qed.

Lemma comprehension_entries (defs : list (string * json))
  (sdps res : list (list (string * json))) :
  outcome_of (supported_dataproducts_of (JObj defs) sdps) = Returns (Done res) ->
  Forall2 (entry_of defs) (filter (listed defs) sdps) res.
Proof.
  revert res. induction sdps as [|sdp rest IH]; intros res H.
  - injection H as <-. constructor.
  - apply comprehension_step in H as [_ [[Hl H] | (Hl & e & l & -> & He & H)]];
      cbn [filter]; rewrite Hl.
    + now apply IH.
    + constructor; [exact He|now apply IH].
Qed.





(** The members of a supported data product win over the OpenAPI document:
    every member of a listed data product, a [name] or a [description] of
    its own included, is a member of its entry with the same value. *)
Theorem listing_keeps_own_members (defs : list (string * json))
  (sdps res : list (list (string * json))) (e : list (string * json)) :
  outcome_of (supported_dataproducts_of (JObj defs) sdps) = Returns (Done res) ->
  In e res ->
  exists sdp, In sdp sdps /\ listed defs sdp = true /\
              forall k v, dict_get k sdp = Some v -> dict_get k e = Some v.
Proof.
  revert res. induction sdps as [|sdp rest IH]; intros res H Hin.
  - injection H as <-. destruct Hin.
  - apply comprehension_step in H as [_ [[Hl H] | (Hl & e' & l & -> & He & H)]].
    + destruct (IH res H Hin) as (sdp' & Hin' & Hrest). exists sdp'. split; [now right|].
      exact Hrest.
    + destruct Hin as [<- | Hin].
      * exists sdp. split; [now left|]. split; [exact Hl|].
        destruct He as (p & s & d & _ & _ & _ & ->).
        intros k v Hk. cbn [dict_get]. now rewrite Hk.
      * destruct (IH l H Hin) as (sdp' & Hin' & Hrest). exists sdp'.
        split; [now right|]. exact Hrest.
Qed.

Lemma listing_keeps_own_members_witness :
  exists sdp,
    In sdp [[("path", JStr "/Weather/Now"); ("name", JStr "Own name")]] /\
    listed [("/Weather/Now",
             JObj [("post", JObj [("summary", JStr "Weather");
                                  ("description", JStr "Current weather")])])] sdp
    = true /\
    forall k v, dict_get k sdp = Some v ->
                dict_get k [("name", JStr "Weather");
                            ("description", JStr "Current weather");
                            ("path", JStr "/Weather/Now"); ("name", JStr "Own name")]
                = Some v.
Proof.
  apply (listing_keeps_own_members
           [("/Weather/Now",
             JObj [("post", JObj [("summary", JStr "Weather");
                                  ("description", JStr "Current weather")])])]
           [[("path", JStr "/Weather/Now"); ("name", JStr "Own name")]]
           [[("name", JStr "Weather"); ("description", JStr "Current weather");
             ("path", JStr "/Weather/Now"); ("name", JStr "Own name")]]).
  - reflexivity.
  - now left.
Defined.

Lemma ProductPassport_new_returns (doc : json) (pp : ProductPassport) :
  outcome_of (ProductPassport_new doc) = Returns pp -> ProductPassport_new doc = ret pp.
Proof.
  unfold ProductPassport_new. case_split; try discriminate. now intros [= <-].
Qed.

Lemma ProductMetadata_new_returns (doc : json) (pm : ProductMetadata) :
  outcome_of (ProductMetadata_new doc) = Returns pm -> ProductMetadata_new doc = ret pm.
Proof.
  unfold ProductMetadata_new. case_split; try discriminate. now intros [= <-].
Qed.

(** What a response of [fetch_metadata] stands on: both documents of the
    issuer were fetched and validated, the configuration of the passport's
    dataspace gave a gateway, the gateway's OpenAPI document was fetched and
    is an object; the response carries the passport's logo and dataspace,
    the product's names and image, and the listing of the product's
    supported data products against the OpenAPI paths. Exactly these three
    documents are fetched and nothing is logged. *)
Theorem fetch_metadata_sound (w : World)
  (get_dataspace_configuration : string -> outcome json) (py_str : json -> string)
  (passport_fails_first : bool) (iss product : string) (r : MetadataV1Response) :
  outcome_of
    (fetch_metadata w get_dataspace_configuration py_str passport_fails_first iss product)
  = Returns (Done r) ->
  exists pp pm config gateway fields defs,
    metadata_fetched w iss product pp pm /\
    get_dataspace_configuration (product_dataspace pp) = Returns (JObj config) /\
    dict_get "product_gateway_url" config = Some gateway /\
    http_get_json w (gateway_text py_str gateway ++ "/openapi.json")
    = Returns (JObj fields) /\
    (dict_get "paths" fields = Some (JObj defs) \/
     dict_get "paths" fields = None /\ defs = [] \/
     supported_dataproducts pm = []) /\
    response_logo_url r = logo_url pp /\
    response_product_dataspace r = product_dataspace pp /\
    response_names r = names pm /\
    response_image_url r = image_url pm /\
    Forall2 (entry_of defs) (filter (listed defs) (supported_dataproducts pm))
      (response_supported_dataproducts r) /\
    trace_of
      (fetch_metadata w get_dataspace_configuration py_str passport_fails_first
         iss product)
    = [EvFetch (get_product_passport_uri iss);
       EvFetch (get_product_metadata_uri iss product);
       EvFetch (gateway_text py_str gateway ++ "/openapi.json")].
Proof.
  intros H.
  assert (exists pp pm, metadata_fetched w iss product pp pm) as (pp & pm & Hfetched).
  { unfold fetch_metadata in H. cbv zeta in H.
    apply bind_returns_inv in H as ([pp pm] & Htry & _).
    apply try_returns_inv in Htry as [Hbody | (e & body & _ & Hh & Hbody)].
    - apply bind_returns_inv in Hbody as ([x y] & Hg & Hbody).
      apply bind_returns_inv in Hbody as (pp' & Hpp & Hbody).
      apply bind_returns_inv in Hbody as (pm' & Hpm & Hbody).
      injection Hbody as <- <-. cbn [fst snd] in *.
      exists pp', pm', x, y.
      rewrite gather_fetches_eq in Hg. unfold outcome_of in Hg. cbn [snd] in Hg.
      destruct (http_get_json w (get_product_passport_uri iss)) as [x'|e1];
        destruct (http_get_json w (get_product_metadata_uri iss product)) as [y'|e2];
        try discriminate.
      injection Hg as -> ->.
      repeat split;
        [now apply ProductPassport_new_returns|now apply ProductMetadata_new_returns].
    - destruct e; try discriminate. injection Hh as <-. discriminate. }
  rewrite (fetch_metadata_fetched w _ _ _ iss product pp pm Hfetched) in *.
  unfold lift in *.
  destruct (get_dataspace_configuration (product_dataspace pp)) as [config|e] eqn:Ec;
    [|destruct e; discriminate].
  rewrite bind_returns in *.
  destruct config as [| | | | |config]; try discriminate.
  cbn [json_getitem] in *.
  destruct (dict_get "product_gateway_url" config) as [gateway|] eqn:Eg;
    [|discriminate].
  rewrite after_ret, try_except_returns, bind_returns in *.
  rewrite fetch_json_file_eq in *.
  fold (gateway_text py_str gateway) in *.
  destruct (http_get_json w (gateway_text py_str gateway ++ "/openapi.json"))
    as [openapi|e] eqn:Eo; [|discriminate].
  rewrite bind_returns in *.
  destruct openapi as [| | | | |fields]; try discriminate.
  set (paths := match dict_get "paths" fields with
                | Some v => v
                | None => JObj []
                end) in *.
  assert (exists defs,
             (dict_get "paths" fields = Some (JObj defs) \/
              dict_get "paths" fields = None /\ defs = [] \/
              supported_dataproducts pm = []) /\
             supported_dataproducts_of paths (supported_dataproducts pm)
             = supported_dataproducts_of (JObj defs) (supported_dataproducts pm))
    as (defs & Hdefs & Epaths).
  { subst paths. destruct (dict_get "paths" fields) as [v|].
    - destruct v as [| | | | |defs];
        try (destruct (supported_dataproducts pm) as [|sdp rest];
             [exists []; split; [now right; right|reflexivity]|discriminate]).
      exists defs. split; [now left|reflexivity].
    - exists []. split; [right; left; now split|reflexivity]. }
  rewrite Epaths in *. clear Epaths.
  destruct (comprehension_outcome defs (supported_dataproducts pm)) as [Ht _].
  unfold trace_of, outcome_of in *.
  destruct (supported_dataproducts_of (JObj defs) (supported_dataproducts pm))
    as [t o] eqn:El.
  cbn [fst] in Ht. subst t.
  destruct o as [[l|]|e]; try discriminate.
  cbn in H. injection H as <-.
  exists pp, pm, config, gateway, fields, defs. cbn.
  repeat split; try assumption; try reflexivity.
  apply comprehension_entries. unfold outcome_of. now rewrite El.
Qed.

Lemma fetch_metadata_sound_witness :
  exists pp pm,
    metadata_fetched
      (metadata_world (Returns Demo.acme_passport) (Returns widget_metadata)
         (Returns gateway_openapi))
      "acme.example" "widget" pp pm /\
    response_names widget_response = names pm /\
    response_logo_url widget_response = logo_url pp.
Proof.
  destruct (fetch_metadata_sound
              (metadata_world (Returns Demo.acme_passport) (Returns widget_metadata)
                 (Returns gateway_openapi))
              gateway_configuration (fun _ => "") true "acme.example" "widget"
              widget_response eq_refl)
    as (pp & pm & config & gateway & fields & defs
        & Hf & _ & _ & _ & _ & Hl & _ & Hn & _).
  exists pp, pm. repeat split; assumption.
Defined.



(** ** The well-known addresses *)

Lemma append_inv_tail (a b s : string) : (a ++ s = b ++ s)%string -> a = b.
Proof.
  intros H. apply (f_equal list_ascii_of_string) in H.
  rewrite !list_ascii_of_string_app in H. apply app_inv_tail in H.
  rewrite <- (string_of_list_ascii_of_string a), <- (string_of_list_ascii_of_string b).
  now rewrite H.
Qed.

(** The address of the descriptor names its issuer: two issuers with the
    same descriptor address are the same text. *)
Theorem passport_uri_injective (iss iss' : string) :
  get_product_passport_uri iss = get_product_passport_uri iss' -> iss = iss'.
Proof.
  unfold get_product_passport_uri. intros H.
  injection H as H. now apply append_inv_tail in H.
Qed.

Lemma passport_uri_injective_witness : "acme.example" = "acme.example".
Proof.
  apply (passport_uri_injective "acme.example" "acme.example"). reflexivity.
Defined.

(** The address of a product document is a plain concatenation, nothing in
    it is escaped: a product whose text holds the products path has the
    address of another product of another issuer. *)
Theorem metadata_uri_aliasing (iss p q : string) :
  get_product_metadata_uri iss (p ++ "/.well-known/product-passport/products/" ++ q)
  = get_product_metadata_uri (iss ++ "/.well-known/product-passport/products/" ++ p) q.
Proof.
  unfold get_product_metadata_uri.
  now rewrite !UrlFacts.append_assoc.
Qed.
